(** * codespell_lib.spellchecker: dictionary loading and line matching

    A shallow embedding of [codespell_lib/spellchecker.py].

    A Python [str] is a sequence of Unicode code points, modelled as a
    list of [N].  The misspelling table [Dict[str, Misspelling]] is a
    [gmap str Misspelling].  Exceptions are modelled by a result type that
    keeps the state reached when the exception was raised, since the
    mutations done before a [raise] stay visible to the caller. *)

From Stdlib Require Import String Ascii.
From stdpp Require Import gmap list sorting.

Local Open Scope N_scope.

(** ** Python strings *)

Abbreviation str := (list N) (only parsing).

(** An ASCII literal as a Python string. *)
Definition py (s : string) : str := N_of_ascii <$> list_ascii_of_string s.

Module Str.

(** [c.isspace()]: the table of [_PyUnicode_IsWhitespace]. *)
Definition isspace (c : N) : bool :=
  ((9 <=? c) && (c <=? 13)) || ((28 <=? c) && (c <=? 32))
  || (c =? 133) || (c =? 160) || (c =? 5760)
  || ((8192 <=? c) && (c <=? 8202))
  || (c =? 8232) || (c =? 8233) || (c =? 8239) || (c =? 8287)
  || (c =? 12288).

(** [s.lstrip()], [s.rstrip()], [s.strip()] with no argument. *)
Fixpoint lstrip (s : str) : str :=
  match s with
  | c :: s' => if isspace c then lstrip s' else s
  | [] => []
  end.

Definition rstrip (s : str) : str := reverse (lstrip (reverse s)).

Definition strip (s : str) : str := rstrip (lstrip s).

(** [s.startswith(p)] for a single prefix [p]. *)
Fixpoint startswith (p s : str) : bool :=
  match p, s with
  | [], _ => true
  | _ :: _, [] => false
  | a :: p', b :: s' => (a =? b) && startswith p' s'
  end.

(** [s.startswith(ps)] for a tuple of prefixes [ps]. *)
Definition startswith_any (ps : list str) (s : str) : bool :=
  existsb (λ p, startswith p s) ps.

(** [sub in s]: substring test. *)
Fixpoint contains (sub s : str) : bool :=
  startswith sub s ||
  match s with
  | [] => false
  | _ :: s' => contains sub s'
  end.

(** [s.count(sub)] for a [sub] that cannot overlap itself, such as
    ["->"]: the number of positions of [s] at which [sub] starts. *)
Fixpoint count (sub s : str) : nat :=
  ((if startswith sub s then 1 else 0) +
   match s with
   | [] => 0
   | _ :: s' => count sub s'
   end)%nat.

(** [s.split(sep)] for a non-empty [sep] (Python raises ValueError on an
    empty separator; the callers pass the literals ["->"] and [","]).
    The text is scanned from the left; at an occurrence of [sep] the
    segment read so far is closed and the scan resumes after the
    occurrence.  [skip] counts the characters of the occurrence still to
    pass over, [acc] is the current segment, reversed. *)
Fixpoint split_go (sep : str) (skip : nat) (acc s : str) : list str :=
  match s with
  | [] => [reverse acc]
  | c :: s' =>
      match skip with
      | S k => split_go sep k acc s'
      | O =>
          if startswith sep s
          then reverse acc :: split_go sep (length sep - 1) [] s'
          else split_go sep 0 (c :: acc) s'
      end
  end.

Definition split (sep s : str) : list str := split_go sep 0 [] s.

(** [s.split(sep, 1)]: at most one cut, at the first occurrence. *)
Fixpoint split1_go (sep acc s : str) : list str :=
  match s with
  | [] => [reverse acc]
  | c :: s' =>
      if startswith sep s
      then [reverse acc; drop (length sep) s]
      else split1_go sep (c :: acc) s'
  end.

Definition split1 (sep s : str) : list str := split1_go sep [] s.

(** [s.rsplit(sep, 1)]: at most one cut, at the last occurrence, that is
    the first occurrence when both texts are read from the right. *)
Definition rsplit1 (sep s : str) : list str :=
  reverse (reverse <$> split1 (reverse sep) (reverse s)).

(** [sep.join(parts)]. *)
Fixpoint join (sep : str) (parts : list str) : str :=
  match parts with
  | [] => []
  | [p] => p
  | p :: ps => p ++ sep ++ join sep ps
  end.

(** [str.maketrans(x, y)] for [x] and [y] of equal length (Python raises
    ValueError otherwise): the dict sending [ord(x[i])] to [ord(y[i])],
    a later pair replacing an earlier one on the same code point. *)
Definition maketrans (x y : str) : gmap N N :=
  foldl (λ m p, <[p.1 := p.2]> m) ∅ (zip x y).

(** [s.translate(table)]. *)
Definition translate (table : gmap N N) (s : str) : str :=
  (λ c, default c (table !! c)) <$> s.

(** [a < b] and [a <= b] on strings: code point by code point, a proper
    prefix being smaller. *)
Fixpoint ltb (a b : str) : bool :=
  match a, b with
  | _, [] => false
  | [], _ :: _ => true
  | x :: a', y :: b' => (x <? y) || ((x =? y) && ltb a' b')
  end.

Fixpoint leb (a b : str) : bool :=
  match a, b with
  | [], _ => true
  | _ :: _, [] => false
  | x :: a', y :: b' => (x <? y) || ((x =? y) && leb a' b')
  end.

Definition le (a b : str) : Prop := leb a b = true.
Definition lt (a b : str) : Prop := ltb a b = true.

#[global] Instance le_dec a b : Decision (le a b).
Proof. unfold le. apply _. Defined.

#[global] Instance lt_dec a b : Decision (lt a b).
Proof. unfold lt. apply _. Defined.

(** [sorted(xs)] for strings: a stable merge sort by [<]. *)
Definition sorted (xs : list str) : list str := merge_sort le xs.

(** [os.path.join(a, b)] of posixpath. *)
Definition path_join (a b : str) : str :=
  if startswith (py "/") b then b
  else if bool_decide (a = []) || startswith (py "/") (reverse a) then a ++ b
  else a ++ py "/" ++ b.

End Str.

(** ** Data model *)

(** The exceptions the module can raise.  [ValueError] is what a failed
    unpacking of [line.split("->")] raises, [IndexError] an index outside
    the line, [OSError] a file that cannot be opened. *)
Inductive exn :=
| ValueError
| IndexError
| OSError
| UnknownBuiltinDictionaryError (name : str)
| BuiltinDictionariesAlreadyLoadedError.

(** The outcome of a call on a mutable object: the object as the call left
    it, and the exception if one was raised. *)
Inductive result (S : Type) :=
| Ok (s : S)
| Raise (e : exn) (s : S).
Arguments Ok {S} s.
Arguments Raise {S} e s.

Definition state_of {S} (r : result S) : S :=
  match r with Ok s | Raise _ s => s end.

Definition bind {S} (r : result S) (k : S → result S) : result S :=
  match r with
  | Ok s => k s
  | Raise e s => Raise e s
  end.

Definition lift {S T} (f : S → T) (r : result S) : result T :=
  match r with
  | Ok s => Ok (f s)
  | Raise e s => Raise e (f s)
  end.

(** [for x in xs: body], the body acting on the state; an exception leaves
    the loop with the state reached. *)
Fixpoint for_ {A S} (xs : list A) (body : A → S → result S) (s : S) : result S :=
  match xs with
  | [] => Ok s
  | x :: xs' => bind (body x s) (for_ xs' body)
  end.

(** [class Misspelling]; the field [fix] is named [fix_]. *)
Record Misspelling := {
  candidates : list str;
  fix_ : bool;
  reason : str;
}.

(** [Token] protocol: [group()] and [start()]. *)
Record Token := {
  group : str;
  start : Z;
}.

(** [class DetectedMisspelling]. *)
Record DetectedMisspelling := {
  word : str;
  lword : str;
  misspelling : Misspelling;
  token : Token;
}.

(** The attributes of a [Spellchecker]; a [Container[str]] is its
    membership test. *)
Record Spellchecker := {
  _misspellings : gmap str Misspelling;
  _builtin_loaded : bool;
  ignore_words_cased : str → bool;
}.

Definition set_misspellings (self : Spellchecker) (m : gmap str Misspelling) :=
  {| _misspellings := m;
     _builtin_loaded := _builtin_loaded self;
     ignore_words_cased := ignore_words_cased self |}.

Definition set_builtin_loaded (self : Spellchecker) (b : bool) :=
  {| _misspellings := _misspellings self;
     _builtin_loaded := b;
     ignore_words_cased := ignore_words_cased self |}.

(** A generator run to its end: the items yielded, in order, and the
    exception that ended it, if any. *)
Record generator (A : Type) := {
  yielded : list A;
  raised : option exn;
}.
Arguments yielded {A} g.
Arguments raised {A} g.

(** What one turn of the loop of a generator does. *)
Inductive turn (A : Type) :=
| Continue
| Yield (a : A)
| Throw (e : exn).
Arguments Continue {A}.
Arguments Yield {A} a.
Arguments Throw {A} e.

Fixpoint generate {T A} (body : T → turn A) (ts : list T) : generator A :=
  match ts with
  | [] => {| yielded := []; raised := None |}
  | t :: ts' =>
      match body t with
      | Continue => generate body ts'
      | Yield a =>
          let g := generate body ts' in
          {| yielded := a :: yielded g; raised := raised g |}
      | Throw e => {| yielded := []; raised := Some e |}
      end
  end.

(** ** Module constants *)

(** [alt_chars = (("'", "’"),)]: the apostrophe and U+2019. *)
Definition alt_chars : list (str * str) := [(py "'", [8217])].

Definition supported_languages_en : list str :=
  [py "en"; py "en_GB"; py "en_US"; py "en_CA"; py "en_AU"].

(** An entry of [_builtin_dictionaries]: [builtin[0]] .. [builtin[6]]. *)
Record Builtin := {
  b_name : str;
  b_desc : str;
  b_suffix : str;
  b_err_aspell : option bool;
  b_rep_aspell : option bool;
  b_err_langs : option (list str);
  b_rep_langs : option (list str);
}.

Definition _builtin_dictionaries : list Builtin := [
  {| b_name := py "clear"; b_desc := py "for unambiguous errors";
     b_suffix := py ""; b_err_aspell := Some false; b_rep_aspell := None;
     b_err_langs := Some supported_languages_en; b_rep_langs := None |};
  {| b_name := py "rare";
     b_desc := py "for rare (but valid) words that are likely to be errors";
     b_suffix := py "_rare"; b_err_aspell := None; b_rep_aspell := None;
     b_err_langs := None; b_rep_langs := None |};
  {| b_name := py "informal";
     b_desc := py "for making informal words more formal";
     b_suffix := py "_informal"; b_err_aspell := Some true;
     b_rep_aspell := Some true;
     b_err_langs := Some supported_languages_en;
     b_rep_langs := Some supported_languages_en |};
  {| b_name := py "usage";
     b_desc := py "for replacing phrasing with recommended terms";
     b_suffix := py "_usage"; b_err_aspell := None; b_rep_aspell := None;
     b_err_langs := None; b_rep_langs := None |};
  {| b_name := py "code";
     b_desc := py "for words from code and/or mathematics that are likely to be typos in other contexts (such as uint)";
     b_suffix := py "_code"; b_err_aspell := None; b_rep_aspell := None;
     b_err_langs := None; b_rep_langs := None |};
  {| b_name := py "names";
     b_desc := py "for valid proper names that might be typos";
     b_suffix := py "_names"; b_err_aspell := None; b_rep_aspell := None;
     b_err_langs := None; b_rep_langs := None |};
  {| b_name := py "en-GB_to_en-US";
     b_desc := py "for corrections from en-GB to en-US";
     b_suffix := py "_en-GB_to_en-US"; b_err_aspell := Some true;
     b_rep_aspell := Some true;
     b_err_langs := Some [py "en_GB"]; b_rep_langs := Some [py "en_US"] |}
].

Definition _builtin_default : str := py "clear,rare".

Definition _builtin_default_as_tuple : list str :=
  Str.split (py ",") _builtin_default.

(** ** [_add_misspelling] *)

Definition _add_misspelling (key data : str)
    (misspellings : gmap str Misspelling)
  : result (gmap str Misspelling) :=
  let data := Str.strip data in
  let parsed :=
    if Str.contains (py ",") data then
      match Str.rsplit1 (py ",") data with
      | [data; reason] => Some (false, data, Str.lstrip reason)
      | _ => None
      end
    else Some (true, data, [])
  in
  match parsed with
  | Some (fix_, data, reason) =>
      Ok (<[key := {| candidates := Str.strip <$> Str.split (py ",") data;
                      fix_ := fix_;
                      reason := reason |}]> misspellings)
  | None => Raise ValueError misspellings
  end.

(** ** Sample inputs *)

(** [str.lower] on text whose cased characters are all ASCII: the letters
    [A]..[Z] go to [a]..[z], every other code point stays. *)
Definition lower_ascii (s : str) : str :=
  (λ c, if (65 <=? c) && (c <=? 90) then c + 32 else c) <$> s.

(** A [Container[str]] given by its elements. *)
Definition container (xs : list str) : str → bool :=
  λ x, bool_decide (x ∈ xs).

(** A tokenizer in the manner of [re.compile(r"[...]+").finditer]: the
    maximal runs of the characters that [keep] accepts, each with the offset
    of its first character.  [cur] is the run being read, reversed, [pos]
    the offset of the next character. *)
Fixpoint finditer_go (keep : N → bool) (pos : Z) (cur : str) (s : str)
  : list Token :=
  let close :=
    match cur with
    | [] => []
    | _ => [{| group := reverse cur;
               start := (pos - Z.of_nat (length cur))%Z |}]
    end in
  match s with
  | [] => close
  | c :: s' =>
      if keep c
      then finditer_go keep (pos + 1) (c :: cur) s'
      else close ++ finditer_go keep (pos + 1) [] s'
  end.

(** [re.compile(r"[A-Za-z]+").finditer]. *)
Definition word_tokenizer (line : str) : list Token :=
  finditer_go
    (λ c, ((65 <=? c) && (c <=? 90)) || ((97 <=? c) && (c <=? 122)))
    0 [] line.

(** [re.compile(r"[^ ]+").finditer], the tokenizer of the docstring of
    [Spellchecker]. *)
Definition space_tokenizer (line : str) : list Token :=
  finditer_go (λ c, negb (c =? 32)) 0 [] line.

(** A directory of dictionaries and a few files: two built-in sources that
    disagree on the key [ment], and custom dictionaries. *)
Definition sample_root : str := py "/srv/codespell/data".

Definition sample_fs (filename : str) : option (list str) :=
  if bool_decide (filename = py "/srv/codespell/data/dictionary.txt") then
    Some [py "tpyo->typo" ++ [10]; py "ment->meant" ++ [10]]
  else if bool_decide
            (filename = py "/srv/codespell/data/dictionary_rare.txt") then
    Some [py "ment->meant, mend, a rare word" ++ [10]]
  else if bool_decide (filename = py "contractions.txt") then
    Some [py "don't->do not" ++ [10]]
  else if bool_decide (filename = py "two_arrows.txt") then
    Some [py "a->b->c" ++ [10]]
  else if bool_decide (filename = py "first.txt") then
    Some [py "Teh->the" ++ [10]]
  else if bool_decide (filename = py "second.txt") then
    Some [py "teh->the, ten, ambiguous" ++ [10]]
  else if bool_decide (filename = py "typos.txt") then
    Some [py "touple->tuple, couple, topple, toupee," ++ [10];
          py "tpyo->typo" ++ [10]]
  else None.

(** An engine that was built without built-in dictionaries. *)
Definition sample_engine : Spellchecker :=
  {| _misspellings := ∅;
     _builtin_loaded := false;
     ignore_words_cased := λ _, false |}.

(** An engine whose table holds the given keys, each with the one
    candidate [abc]. *)
Definition sample_engine_with (keys : list str) : Spellchecker :=
  {| _misspellings :=
       list_to_map
         ((λ k, (k, {| candidates := [py "abc"];
                       fix_ := true;
                       reason := [] |})) <$> keys);
     _builtin_loaded := false;
     ignore_words_cased := λ _, false |}.

(** The key [don’t], with U+2019 for the apostrophe. *)
Definition dont_alternate : str := py "don" ++ [8217] ++ py "t".

(** More files: one with a line that lacks the arrow between two lines
    that hold it, and two parts with the file that holds the lines of
    both. *)
Definition sample_fs2 (filename : str) : option (list str) :=
  if bool_decide (filename = py "mixed.txt") then
    Some [py "tpyo->typo" ++ [10];
          py "no arrow here" ++ [10];
          py "teh->the" ++ [10]]
  else if bool_decide (filename = py "part1.txt") then
    Some [py "tpyo->typo" ++ [10]]
  else if bool_decide (filename = py "part2.txt") then
    Some [py "teh->the, ten, ambiguous" ++ [10]]
  else if bool_decide (filename = py "whole.txt") then
    Some [py "tpyo->typo" ++ [10]; py "teh->the, ten, ambiguous" ++ [10]]
  else None.

(** A tokenizer that does not keep its offsets within the line. *)
Definition far_tokenizer (line : str) : list Token :=
  [{| group := py "nabc"; start := 99 |}].

(** ** The methods of [Spellchecker] *)

Section Spellchecker.

(** [str.lower], the Unicode lowercasing of the interpreter. *)
Variable lower : str → str.

(** The files that can be opened, each as the list of its lines (a line
    keeps its end-of-line character); [None] where [open] fails. *)
Variable fs : str → option (list str).

(** The directory of the dictionaries shipped with the module. *)
Variable _data_root : str.

Definition translate_tables : list (str * gmap N N) :=
  (λ p, (p.1, Str.maketrans p.1 p.2)) <$> alt_chars.

(** The body of [for line in f] in [load_dictionary_from_file]. *)
Definition load_line (ignore_words : str → bool) (line : str)
    (misspellings : gmap str Misspelling)
  : result (gmap str Misspelling) :=
  match Str.split (py "->") line with
  | [key; data] =>
      let key := lower key in
      let data := lower data in
      bind
        (if negb (ignore_words key)
         then _add_misspelling key data misspellings
         else Ok misspellings)
        (for_ translate_tables (λ xt misspellings,
           if Str.contains xt.1 key then
             let alt_key := Str.translate xt.2 key in
             let alt_data := Str.translate xt.2 data in
             if negb (ignore_words alt_key)
             then _add_misspelling alt_key alt_data misspellings
             else Ok misspellings
           else Ok misspellings))
  | _ => Raise ValueError misspellings
  end.

Definition load_dictionary_from_file (self : Spellchecker)
    (filename : str) (ignore_words : str → bool)
  : result Spellchecker :=
  match fs filename with
  | Some f =>
      lift (set_misspellings self)
        (for_ f (load_line ignore_words) (_misspellings self))
  | None => Raise OSError self
  end.

Definition _load_builtin_dictionary (self : Spellchecker)
    (name : str) (ignore_words : str → bool)
  : result Spellchecker :=
  match List.find (λ builtin, bool_decide (b_name builtin = name))
          _builtin_dictionaries with
  | Some builtin =>
      let filename :=
        Str.path_join _data_root
          (py "dictionary" ++ b_suffix builtin ++ py ".txt") in
      load_dictionary_from_file self filename ignore_words
  | None => Raise (UnknownBuiltinDictionaryError name) self
  end.

(** [sorted(set(builtin_dictionaries))]. *)
Definition load_order (builtin_dictionaries : list str) : list str :=
  Str.sorted (elements (list_to_set builtin_dictionaries : gset str)).

Definition load_builtin_dictionaries (self : Spellchecker)
    (builtin_dictionaries : list str) (ignore_words : str → bool)
  : result Spellchecker :=
  if _builtin_loaded self then
    Raise BuiltinDictionariesAlreadyLoadedError self
  else
    bind
      (for_ (load_order builtin_dictionaries)
         (λ name self, _load_builtin_dictionary self name ignore_words)
         self)
      (λ self, Ok (set_builtin_loaded self true)).

(** [Spellchecker(builtin_dictionaries=...)]; [None] and an empty
    sequence are both false. *)
Definition __init__ (builtin_dictionaries : option (list str))
  : result Spellchecker :=
  let self :=
    {| _misspellings := ∅;
       _builtin_loaded := false;
       ignore_words_cased := λ _, false |} in
  match builtin_dictionaries with
  | Some (name :: names) =>
      load_builtin_dictionaries self (name :: names) (λ _, false)
  | _ => Ok self
  end.

Definition check_lower_cased_word (self : Spellchecker) (word : str)
  : option Misspelling :=
  _misspellings self !! word.

(** The letters of the one-letter escape sequences. *)
Definition escape_letters : list str :=
  [py "a"; py "b"; py "f"; py "n"; py "r"; py "t"; py "v"].

(** The body of [for token in tokenizer(line)] in [spellcheck_line]. *)
Definition spellcheck_token (self : Spellchecker) (line : str)
    (extra_words_to_ignore : str → bool) (token : Token)
  : turn DetectedMisspelling :=
  let misspellings := _misspellings self in
  let word := group token in
  if ignore_words_cased self word then Continue
  else
    let lword := lower word in
    match misspellings !! lword with
    | Some misspelling =>
        if negb (extra_words_to_ignore lword) then
          let char_before_idx := (start token - 1)%Z in
          let emit :=
            Yield {| word := word; lword := lword;
                     misspelling := misspelling; token := token |} in
          if (0 <=? char_before_idx)%Z then
            match line !! Z.to_nat char_before_idx with
            | Some c =>
                if (c =? 92)
                   && Str.startswith_any escape_letters word
                   && bool_decide (misspellings !! drop 1 lword = None)
                then Continue
                else emit
            | None => Throw IndexError
            end
          else emit
        else Continue
    | None => Continue
    end.

Definition spellcheck_line (self : Spellchecker) (line : str)
    (tokenizer : str → list Token)
    (extra_words_to_ignore : str → bool)
  : generator DetectedMisspelling :=
  generate (spellcheck_token self line extra_words_to_ignore)
    (tokenizer line).


(** ** Sequences of load calls *)

(** A call that loads dictionaries into an engine. *)
Inductive load_call :=
| LoadDictionaryFromFile (filename : str) (ignore_words : str → bool)
| LoadBuiltinDictionaries (builtin_dictionaries : list str)
    (ignore_words : str → bool).

Definition run_call (self : Spellchecker) (c : load_call) : result Spellchecker :=
  match c with
  | LoadDictionaryFromFile filename ignore_words =>
      load_dictionary_from_file self filename ignore_words
  | LoadBuiltinDictionaries builtin_dictionaries ignore_words =>
      load_builtin_dictionaries self builtin_dictionaries ignore_words
  end.

(** The engine after a sequence of calls, the caller going on after a
    call that raised. *)
Definition run_calls (self : Spellchecker) (cs : list load_call) : Spellchecker :=
  foldl (λ self c, state_of (run_call self c)) self cs.

(** The record [_add_misspelling] stores for [data]. *)
Definition record_of (data : str) : option Misspelling :=
  state_of (_add_misspelling [] data ∅) !! ([] : str).

(** The invariant of a stored record. *)
Definition record_ok (r : Misspelling) : Prop :=
  candidates r ≠ [] ∧ (fix_ r = true → reason r = []).

Definition table_ok (m : gmap str Misspelling) : Prop :=
  map_Forall (λ _ r, record_ok r) m.

(** ** Facts about the string operations *)

Set Default Proof Using "Type".

Lemma startswith_prefix (p s : str) :
  Str.startswith p s = true ↔ ∃ r, s = p ++ r.
Proof.
  revert s. induction p as [|a p IH]; intros s; simpl.
  - split; [eauto|done].
  - destruct s as [|b s].
    + split; [done|]. by intros [r Hr].
    + rewrite andb_true_iff, N.eqb_eq, IH. split.
      * intros [-> [r ->]]. by exists r.
      * intros [r Hr]. simplify_eq. eauto.
Qed.

Lemma contains_char (c : N) (s : str) :
  Str.contains [c] s = true ↔ c ∈ s.
Proof.
  induction s as [|b s IH]; simpl.
  - split; [done|]. by intros ?%elem_of_nil.
  - rewrite orb_true_iff, andb_true_iff, N.eqb_eq, IH, elem_of_cons.
    split; [intros [[-> _]|?]|intros [->|?]]; auto.
Qed.

Lemma contains_char_false (c : N) (s : str) :
  Str.contains [c] s = false ↔ c ∉ s.
Proof. rewrite <-contains_char. by destruct (Str.contains [c] s). Qed.

(** *** Stripping *)

Lemma lstrip_decomp (s : str) :
  ∃ ws, s = ws ++ Str.lstrip s ∧ Forall (λ c, Str.isspace c = true) ws.
Proof.
  induction s as [|c s (ws & Hs & Hws)]; simpl.
  - by exists [].
  - destruct (Str.isspace c) eqn:Hc.
    + exists (c :: ws). split; [by rewrite Hs at 1|by constructor].
    + by exists [].
Qed.

Lemma rstrip_decomp (s : str) :
  ∃ ws, s = Str.rstrip s ++ ws ∧ Forall (λ c, Str.isspace c = true) ws.
Proof.
  unfold Str.rstrip. destruct (lstrip_decomp (reverse s)) as (ws & Hs & Hws).
  exists (reverse ws). split.
  - rewrite <-reverse_app, <-Hs. by rewrite reverse_involutive.
  - by apply Forall_reverse.
Qed.

Lemma strip_decomp (s : str) :
  ∃ ws1 ws2, s = ws1 ++ Str.strip s ++ ws2
    ∧ Forall (λ c, Str.isspace c = true) ws1
    ∧ Forall (λ c, Str.isspace c = true) ws2.
Proof.
  unfold Str.strip.
  destruct (lstrip_decomp s) as (ws1 & Hs & Hws1).
  destruct (rstrip_decomp (Str.lstrip s)) as (ws2 & Hs' & Hws2).
  exists ws1, ws2. split; [|done]. by rewrite <-Hs'.
Qed.

Lemma strip_elem (c : N) (s : str) :
  Str.isspace c = false → c ∈ Str.strip s ↔ c ∈ s.
Proof.
  intros Hc. destruct (strip_decomp s) as (ws1 & ws2 & Hs & H1 & H2).
  rewrite Hs at 2. rewrite !elem_of_app.
  rewrite Forall_forall in H1, H2. split; [by auto|].
  intros [?|[?|?]]; [|done|].
  - rewrite H1 in Hc; done.
  - rewrite H2 in Hc; done.
Qed.

(** *** Splitting on one character *)

Lemma split_go_nonempty (sep : str) (skip : nat) (acc s : str) :
  Str.split_go sep skip acc s ≠ [].
Proof.
  revert skip acc. induction s as [|c s IH]; intros skip acc; simpl; [done|].
  destruct skip; [|done]. by destruct (Str.startswith sep (c :: s)).
Qed.

Lemma split_go_char_notin (c : N) (acc s : str) :
  c ∉ s → Str.split_go [c] 0 acc s = [reverse acc ++ s].
Proof.
  revert acc. induction s as [|b s IH]; intros acc Hc; simpl.
  - by rewrite app_nil_r.
  - apply not_elem_of_cons in Hc as [Hcb Hc].
    rewrite andb_true_r. destruct (N.eqb_spec c b); [done|].
    rewrite IH by done. by rewrite reverse_cons, <-app_assoc.
Qed.

Lemma split_go_char_cut (c : N) (acc a b : str) :
  c ∉ a →
  Str.split_go [c] 0 acc (a ++ c :: b)
  = (reverse acc ++ a) :: Str.split_go [c] 0 [] b.
Proof.
  revert acc. induction a as [|x a IH]; intros acc Hc; simpl.
  - by rewrite N.eqb_refl, app_nil_r.
  - apply not_elem_of_cons in Hc as [Hcx Hc].
    rewrite andb_true_r. destruct (N.eqb_spec c x); [done|].
    rewrite IH by done. by rewrite reverse_cons, <-app_assoc.
Qed.

Lemma join_cons (sep p : str) (ps : list str) :
  ps ≠ [] → Str.join sep (p :: ps) = p ++ sep ++ Str.join sep ps.
Proof. by destruct ps. Qed.

Lemma join_snoc (sep p : str) (ps : list str) :
  ps ≠ [] → Str.join sep (ps ++ [p]) = Str.join sep ps ++ sep ++ p.
Proof.
  induction ps as [|q ps IH]; [done|]. intros _.
  destruct ps as [|q' ps]; [done|].
  change ((q :: q' :: ps) ++ [p]) with (q :: ((q' :: ps) ++ [p])).
  rewrite !join_cons by done. rewrite IH by done.
  by rewrite <-!app_assoc.
Qed.

Lemma split_join (c : N) (segs : list str) :
  segs ≠ [] → Forall (λ seg, c ∉ seg) segs →
  Str.split [c] (Str.join [c] segs) = segs.
Proof.
  unfold Str.split. induction segs as [|p ps IH]; [done|].
  intros _ [Hp Hps]%Forall_cons. destruct ps as [|q ps].
  - simpl. by rewrite split_go_char_notin.
  - rewrite join_cons by done.
    change (p ++ [c] ++ Str.join [c] (q :: ps))
      with (p ++ c :: Str.join [c] (q :: ps)).
    rewrite split_go_char_cut by done. by rewrite IH.
Qed.

Lemma split_go_char_join (c : N) (acc s : str) :
  Str.join [c] (Str.split_go [c] 0 acc s) = reverse acc ++ s.
Proof.
  revert acc. induction s as [|b s IH]; intros acc.
  - simpl. by rewrite app_nil_r.
  - cbn [Str.split_go Str.startswith]. rewrite andb_true_r.
    destruct (N.eqb_spec c b) as [->|].
    + cbn [length Nat.sub]. rewrite join_cons by apply split_go_nonempty.
      rewrite IH. done.
    + rewrite IH. by rewrite reverse_cons, <-app_assoc.
Qed.

Lemma split_go_char_free (c : N) (acc s : str) :
  c ∉ acc → Forall (λ seg, c ∉ seg) (Str.split_go [c] 0 acc s).
Proof.
  revert acc. induction s as [|b s IH]; intros acc Hacc.
  - simpl. constructor; [|done]. by rewrite elem_of_reverse.
  - cbn [Str.split_go Str.startswith]. rewrite andb_true_r.
    destruct (N.eqb_spec c b) as [->|].
    + cbn [length Nat.sub]. constructor.
      * by rewrite elem_of_reverse.
      * apply IH. by intros ?%elem_of_nil.
    + apply IH. rewrite not_elem_of_cons. done.
Qed.

Lemma split_char_spec (c : N) (s : str) :
  Str.join [c] (Str.split [c] s) = s
  ∧ Forall (λ seg, c ∉ seg) (Str.split [c] s)
  ∧ Str.split [c] s ≠ [].
Proof.
  unfold Str.split. split_and!.
  - by rewrite split_go_char_join.
  - apply split_go_char_free. by intros ?%elem_of_nil.
  - apply split_go_nonempty.
Qed.

(** *** Cutting at the last occurrence of a character *)

Lemma split1_go_char_cut (c : N) (acc a b : str) :
  c ∉ a → Str.split1_go [c] acc (a ++ c :: b) = [reverse acc ++ a; b].
Proof.
  revert acc. induction a as [|x a IH]; intros acc Hc; simpl.
  - by rewrite N.eqb_refl, app_nil_r.
  - apply not_elem_of_cons in Hc as [Hcx Hc].
    rewrite andb_true_r. destruct (N.eqb_spec c x); [done|].
    rewrite IH by done. by rewrite reverse_cons, <-app_assoc.
Qed.

Lemma rsplit1_char_cut (c : N) (a b : str) :
  c ∉ b → Str.rsplit1 [c] (a ++ c :: b) = [a; b].
Proof.
  intros Hc. unfold Str.rsplit1, Str.split1.
  change (reverse [c]) with [c].
  rewrite reverse_app, reverse_cons, <-app_assoc. simpl.
  rewrite split1_go_char_cut by by rewrite elem_of_reverse.
  simpl. by rewrite !reverse_involutive.
Qed.

(** *** Splitting on the arrow *)

Lemma split_go_arrow_cases (acc s : str) :
  (Str.count (py "->") s = 0%nat
   ∧ Str.split_go (py "->") 0 acc s = [reverse acc ++ s])
  ∨ (∃ a b, s = a ++ py "->" ++ b
       ∧ Str.count (py "->") s = S (Str.count (py "->") b)
       ∧ Str.split_go (py "->") 0 acc s
         = (reverse acc ++ a) :: Str.split_go (py "->") 0 [] b).
Proof.
  revert acc. induction s as [|c s IH]; intros acc.
  - left. simpl. by rewrite app_nil_r.
  - destruct (Str.startswith (py "->") (c :: s)) eqn:Hsw.
    + right. apply startswith_prefix in Hsw as [r Hr].
      change (py "->" ++ r) with (45 :: 62 :: r) in Hr. simplify_eq.
      exists [], r. split_and!; [done|done|].
      simpl. by rewrite app_nil_r.
    + cbn [Str.split_go Str.count]. rewrite Hsw.
      destruct (IH (c :: acc)) as [[Hn Hs]|(a & b & -> & Hn & Hs)].
      * left. split; [done|]. rewrite Hs.
        by rewrite reverse_cons, <-app_assoc.
      * right. exists (c :: a), b. split_and!; [done|done|].
        rewrite Hs. by rewrite reverse_cons, <-app_assoc.
Qed.

Lemma split_arrow_none (acc s : str) :
  Str.count (py "->") s = 0%nat →
  Str.split_go (py "->") 0 acc s = [reverse acc ++ s].
Proof.
  intros Hn. destruct (split_go_arrow_cases acc s)
    as [[_ Hs]|(a & b & _ & Hn' & _)]; [done|lia].
Qed.

Lemma split_arrow_length_1 (acc s : str) :
  length (Str.split_go (py "->") 0 acc s) = 1%nat
  ↔ Str.count (py "->") s = 0%nat.
Proof.
  destruct (split_go_arrow_cases acc s)
    as [[Hn Hs]|(a & b & _ & Hn & Hs)]; rewrite Hs, Hn; simpl.
  - done.
  - pose proof (split_go_nonempty (py "->") 0 [] b) as Hne.
    destruct (Str.split_go (py "->") 0 [] b); [done|]. simpl. lia.
Qed.

(** A line unpacks into [key] and [data] exactly when the arrow occurs
    once in it, and then the arrow stands between the two. *)
Lemma split_arrow_pair (s : str) :
  Str.count (py "->") s = 1%nat
  ↔ ∃ key data, Str.split (py "->") s = [key; data].
Proof.
  unfold Str.split.
  destruct (split_go_arrow_cases [] s)
    as [[Hn Hs]|(a & b & _ & Hn & Hs)]; rewrite Hs, Hn.
  - split; [done|]. by intros (? & ? & ?).
  - split.
    + intros [= Hb]. rewrite (split_arrow_none _ _ Hb). eauto.
    + intros (key & data & [= _ Hd]). f_equal.
      apply (split_arrow_length_1 [] b). by rewrite Hd.
Qed.

Lemma split_arrow_between (s key data : str) :
  Str.split (py "->") s = [key; data] →
  s = key ++ py "->" ++ data
  ∧ Str.count (py "->") data = 0%nat.
Proof.
  unfold Str.split.
  destruct (split_go_arrow_cases [] s)
    as [[Hn Hs]|(a & b & -> & Hn & Hs)]; rewrite Hs; [done|].
  intros [= <- Hd].
  assert (Str.count (py "->") b = 0%nat) as Hb
    by (apply (split_arrow_length_1 [] b); by rewrite Hd).
  rewrite (split_arrow_none _ _ Hb) in Hd. by simplify_eq.
Qed.

(** *** The order on strings *)

Lemma leb_refl (a : str) : Str.leb a a = true.
Proof.
  induction a as [|x a IH]; simpl; [done|].
  by rewrite N.eqb_refl, IH, orb_true_r.
Qed.

#[local] Instance le_total : Total Str.le.
Proof.
  unfold Str.le. intros a. induction a as [|x a IH]; intros [|y b]; simpl;
    [by left|by left|by right|].
  destruct (N.ltb_spec x y), (N.ltb_spec y x), (N.eqb_spec x y),
    (N.eqb_spec y x); simpl; try lia; auto.
Qed.

#[local] Instance le_trans : Transitive Str.le.
Proof.
  unfold Str.le. intros a. induction a as [|x a IH]; intros [|y b] [|z c];
    simpl; try done.
  destruct (N.ltb_spec x y), (N.ltb_spec y z), (N.ltb_spec x z),
    (N.eqb_spec x y), (N.eqb_spec y z), (N.eqb_spec x z);
    simpl; try lia; try done.
  apply IH.
Qed.

#[local] Instance le_antisymm : AntiSymm (=) Str.le.
Proof.
  unfold Str.le. intros a. induction a as [|x a IH]; intros [|y b];
    simpl; try done.
  destruct (N.ltb_spec x y), (N.ltb_spec y x), (N.eqb_spec x y),
    (N.eqb_spec y x); simpl; try lia; try done.
  intros ??. f_equal; [done|]. by apply IH.
Qed.

Lemma ltb_leb (a b : str) :
  Str.ltb a b = Str.leb a b && negb (bool_decide (a = b)).
Proof.
  revert b. induction a as [|x a IH]; intros [|y b]; simpl; try done.
  rewrite IH.
  destruct (N.ltb_spec x y), (N.eqb_spec x y); simpl; try lia;
    repeat case_bool_decide; simplify_eq; rewrite ?andb_true_r, ?andb_false_r;
    try done; lia.
Qed.

Lemma lt_le_ne (a b : str) : Str.lt a b ↔ Str.le a b ∧ a ≠ b.
Proof.
  unfold Str.lt, Str.le. rewrite ltb_leb, andb_true_iff, negb_true_iff.
  by rewrite bool_decide_eq_false.
Qed.

(** *** Stripping twice *)

Lemma lstrip_head (s : str) (c : N) (r : str) :
  Str.lstrip s = c :: r → Str.isspace c = false.
Proof.
  induction s as [|b s IH]; simpl; [done|].
  destruct (Str.isspace b) eqn:Hb; [done|]. by intros [= <- _].
Qed.

Lemma lstrip_id (s : str) :
  (∀ c r, s = c :: r → Str.isspace c = false) → Str.lstrip s = s.
Proof.
  destruct s as [|c r]; [done|]. intros H. simpl. by rewrite (H c r).
Qed.

Lemma lstrip_lstrip (s : str) : Str.lstrip (Str.lstrip s) = Str.lstrip s.
Proof. apply lstrip_id. intros c r. apply lstrip_head. Qed.

Lemma rstrip_rstrip (s : str) : Str.rstrip (Str.rstrip s) = Str.rstrip s.
Proof.
  unfold Str.rstrip. by rewrite reverse_involutive, lstrip_lstrip.
Qed.

Lemma strip_strip (s : str) : Str.strip (Str.strip s) = Str.strip s.
Proof.
  unfold Str.strip. rewrite (lstrip_id (Str.rstrip _)).
  - apply rstrip_rstrip.
  - intros c r Hr.
    destruct (rstrip_decomp (Str.lstrip s)) as (ws & Hs & _).
    rewrite Hr in Hs. by apply (lstrip_head s c (r ++ ws)).
Qed.

Lemma elem_of_last_cut (c : N) (s : str) :
  c ∈ s → ∃ a b, s = a ++ c :: b ∧ c ∉ b.
Proof.
  induction s as [|x s IH]; [by intros ?%elem_of_nil|].
  destruct (decide (c ∈ s)) as [Hs|Hs].
  - intros _. destruct (IH Hs) as (a & b & -> & Hb). by exists (x :: a), b.
  - intros [->|?]%elem_of_cons; [|done]. by exists [], s.
Qed.

(** *** Sorting *)

Lemma lt_irrefl (a : str) : ¬ Str.lt a a.
Proof. rewrite lt_le_ne. by intros [_ ?]. Qed.

Lemma lt_asymm (a b : str) : Str.lt a b → ¬ Str.lt b a.
Proof.
  rewrite !lt_le_ne. intros [Hab Hne] [Hba _].
  by apply Hne, (anti_symm Str.le).
Qed.

Lemma sorted_strict (l : list str) :
  NoDup l → StronglySorted Str.lt (Str.sorted l).
Proof.
  intros Hl. unfold Str.sorted.
  assert (NoDup (merge_sort Str.le l)) as Hnd
    by by rewrite merge_sort_Permutation.
  pose proof (StronglySorted_merge_sort Str.le l) as Hs.
  induction Hs as [|x k Hk IH Hx]; [constructor|].
  apply NoDup_cons in Hnd as [Hxk Hnd]. constructor; [by apply IH|].
  rewrite Forall_forall in Hx |- *. intros y Hy.
  apply lt_le_ne. split; [by apply Hx|]. by intros ->.
Qed.


Lemma filter_lt_sorted (pre post : list str) (x : str) :
  StronglySorted Str.lt (pre ++ x :: post) →
  filter (λ n, Str.lt n x) (pre ++ x :: post) = pre.
Proof.
  intros Hs. apply StronglySorted_app in Hs as (Hlt & _ & Hx).
  apply StronglySorted_cons in Hx as [Hpost _].
  rewrite filter_app, filter_cons_False by apply lt_irrefl.
  assert (filter (λ n, Str.lt n x) post = []) as ->.
  { clear Hlt. induction post as [|y post IH]; [done|].
    apply Forall_cons in Hpost as [Hy Hpost].
    rewrite filter_cons_False by by apply lt_asymm. by apply IH. }
  rewrite app_nil_r.
  induction pre as [|y pre IH]; [done|].
  rewrite filter_cons_True.
  - f_equal. apply IH. intros a b Ha Hb. apply Hlt; [by right|done].
  - apply Hlt; [by left|by left].
Qed.

(** ** Facts about loops and results *)

Lemma for_app {A S} (xs ys : list A) (body : A → S → result S) (s : S) :
  for_ (xs ++ ys) body s = bind (for_ xs body s) (for_ ys body).
Proof.
  revert s. induction xs as [|x xs IH]; intros s; simpl; [done|].
  destruct (body x s); simpl; [apply IH|done].
Qed.

Lemma for_invariant {A S} (P : S → Prop) (xs : list A)
    (body : A → S → result S) (s : S) :
  (∀ x s, P s → P (state_of (body x s))) →
  P s → P (state_of (for_ xs body s)).
Proof.
  intros Hbody. revert s. induction xs as [|x xs IH]; intros s Hs; simpl;
    [done|].
  specialize (Hbody x s Hs). destruct (body x s); simpl in *; auto.
Qed.

Lemma for_raise_inv {A S} (xs : list A) (body : A → S → result S)
    (s s' : S) (e : exn) :
  for_ xs body s = Raise e s' →
  ∃ pre x post s1,
    xs = pre ++ x :: post ∧ for_ pre body s = Ok s1 ∧ body x s1 = Raise e s'.
Proof.
  revert s. induction xs as [|x xs IH]; intros s; simpl; [done|].
  destruct (body x s) as [s1|e1 s1] eqn:Hx; simpl.
  - intros (pre & y & post & s2 & -> & Hpre & Hy)%IH.
    exists (x :: pre), y, post, s2. simpl. by rewrite Hx.
  - intros [= -> ->]. by exists [], x, xs, s.
Qed.

Lemma for_raise_iff {A S} (P : A → Prop) (e : exn) (xs : list A)
    (body : A → S → result S) (s : S) :
  (∀ x s, (P x ∧ ∃ s', body x s = Ok s') ∨ (¬ P x ∧ body x s = Raise e s)) →
  (∃ s', for_ xs body s = Raise e s') ↔ Exists (λ x, ¬ P x) xs.
Proof.
  intros Hbody. revert s. induction xs as [|x xs IH]; intros s; simpl.
  - split; [by intros [? ?]|by intros ?%Exists_nil].
  - rewrite Exists_cons, <-(IH (state_of (body x s))).
    destruct (Hbody x s) as [[HP [s1 ->]]|[HP ->]]; simpl.
    + split; [by right|by intros [?|?]].
    + split; [by left|eauto].
Qed.

(** ** Facts about [_add_misspelling] *)

Lemma _add_misspelling_comma (key data a b : str)
    (t : gmap str Misspelling) :
  Str.strip data = a ++ 44 :: b → 44 ∉ b →
  _add_misspelling key data t
  = Ok (<[key := {| candidates := Str.strip <$> Str.split (py ",") a;
                    fix_ := false;
                    reason := Str.lstrip b |}]> t).
Proof.
  intros Hd Hb. unfold _add_misspelling. rewrite Hd.
  change (py ",") with [44].
  assert (Str.contains [44] (a ++ 44 :: b) = true) as ->.
  { apply contains_char. rewrite elem_of_app, elem_of_cons. auto. }
  by rewrite rsplit1_char_cut.
Qed.

Lemma _add_misspelling_plain (key data : str)
    (t : gmap str Misspelling) :
  44 ∉ data →
  _add_misspelling key data t
  = Ok (<[key := {| candidates := [Str.strip data];
                    fix_ := true;
                    reason := [] |}]> t).
Proof.
  intros Hd. unfold _add_misspelling. change (py ",") with [44].
  assert (44 ∉ Str.strip data) as Hd' by by rewrite strip_elem.
  apply contains_char_false in Hd' as Hc. rewrite Hc.
  unfold Str.split. rewrite split_go_char_notin by done. simpl.
  by rewrite strip_strip.
Qed.

(** The call never raises, and the record it stores depends on [data]
    alone. *)
Lemma _add_misspelling_ok (data : str) :
  ∃ r, record_of data = Some r ∧ record_ok r
    ∧ ∀ key t, _add_misspelling key data t = Ok (<[key := r]> t).
Proof.
  unfold record_of. destruct (decide (44 ∈ data)) as [Hd|Hd].
  - apply (strip_elem 44 data) in Hd; [|done].
    apply elem_of_last_cut in Hd as (a & b & Hd & Hb).
    eexists. split_and!.
    + rewrite (_add_misspelling_comma _ _ a b) by done. simpl.
      apply lookup_insert_eq.
    + split; simpl; [|done].
      change (py ",") with [44].
      pose proof (split_go_nonempty [44] 0 [] a) as Hne.
      unfold Str.split. by destruct (Str.split_go [44] 0 [] a).
    + intros key t. by apply _add_misspelling_comma.
  - eexists. split_and!.
    + rewrite _add_misspelling_plain by done. simpl. apply lookup_insert_eq.
    + done.
    + intros key t. by apply _add_misspelling_plain.
Qed.

(** ** The comma-reason rule *)

(** C4.  Let [data] be the data field of a record and [strip data] its
    trimmed form, a comma being code point 44.
    - If the trimmed data reads [seg1,seg2,..,segn,after] with at least
      one segment before the last comma and no comma inside a segment or
      inside [after], the record stored at [key] has the trimmed segments
      as candidates, in order, [after] with its leading whitespace
      stripped as reason, and [fix = False].
    - Every data field that contains a comma reads that way.
    - If the data field contains no comma, the record stored has the
      trimmed data as its one candidate, [fix = True] and an empty
      reason. *)
Theorem comma_reason_rule (key data : str)
    (t : gmap str Misspelling) :
  (∀ segs after,
     segs ≠ [] → Forall (λ seg, 44 ∉ seg) segs → 44 ∉ after →
     Str.strip data = Str.join (py ",") (segs ++ [after]) →
     _add_misspelling key data t
     = Ok (<[key := {| candidates := Str.strip <$> segs;
                       fix_ := false;
                       reason := Str.lstrip after |}]> t))
  ∧ (44 ∈ data →
     ∃ segs after,
       segs ≠ [] ∧ Forall (λ seg, 44 ∉ seg) segs ∧ (44 ∉ after)
       ∧ Str.strip data = Str.join (py ",") (segs ++ [after]))
  ∧ (44 ∉ data →
     _add_misspelling key data t
     = Ok (<[key := {| candidates := [Str.strip data];
                       fix_ := true;
                       reason := [] |}]> t)).
Proof.
  change (py ",") with [44]. split_and!.
  - intros segs after Hne Hsegs Hafter Hd.
    rewrite join_snoc in Hd by done.
    rewrite (_add_misspelling_comma key data (Str.join [44] segs) after)
      by done.
    change (py ",") with [44]. by rewrite split_join.
  - intros Hd. apply (strip_elem 44 data) in Hd; [|done].
    destruct (split_char_spec 44 (Str.strip data)) as (Hjoin & Hfree & Hne).
    destruct (Str.split [44] (Str.strip data)) as [|p ps _] using rev_ind;
      [done|].
    apply Forall_app in Hfree as [Hps Hp].
    apply Forall_cons in Hp as [Hp _].
    exists ps, p. split_and!; try done.
    intros ->. simpl in Hjoin. by rewrite <-Hjoin in Hd.
  - apply _add_misspelling_plain.
Qed.

(** ** Facts about [load_line] *)

Lemma maketrans_alt : Str.maketrans (py "'") [8217] = {[ 39 := 8217 ]}.
Proof. reflexivity. Qed.

Lemma translate_alt (s : str) :
  Str.translate (Str.maketrans (py "'") [8217]) s
  = (λ c, if c =? 39 then 8217 else c) <$> s.
Proof.
  rewrite maketrans_alt. unfold Str.translate. apply list_fmap_ext.
  intros _ c _. destruct (N.eqb_spec c 39) as [->|Hc].
  - by rewrite lookup_singleton_eq.
  - by rewrite lookup_singleton_ne.
Qed.

Lemma translate_alt_ne (s : str) :
  39 ∈ s → Str.translate (Str.maketrans (py "'") [8217]) s ≠ s.
Proof.
  intros Hs Heq. rewrite <-Heq, translate_alt in Hs.
  apply list_elem_of_fmap in Hs as (c & Hc & _).
  by destruct (N.eqb_spec c 39).
Qed.

(** What a line with one arrow does to the table: the write at the key,
    then the write at the alternate key, each under its own test. *)
Lemma load_line_pair (ignore_words : str → bool)
    (line key data : str) (t : gmap str Misspelling) :
  Str.split (py "->") line = [key; data] →
  ∃ rk ra,
    record_of (lower data) = Some rk
    ∧ record_of (Str.translate (Str.maketrans (py "'") [8217]) (lower data))
      = Some ra
    ∧ record_ok rk ∧ record_ok ra
    ∧ load_line ignore_words line t
      = Ok (let t1 :=
              if ignore_words (lower key) then t
              else <[lower key := rk]> t in
            if Str.contains (py "'") (lower key) then
              if ignore_words
                   (Str.translate (Str.maketrans (py "'") [8217]) (lower key))
              then t1
              else <[Str.translate (Str.maketrans (py "'") [8217]) (lower key)
                     := ra]> t1
            else t1).
Proof.
  intros Hsplit. unfold load_line. rewrite Hsplit.
  destruct (_add_misspelling_ok (lower data)) as (rk & Hrk & Hok & Hadd).
  destruct (_add_misspelling_ok
              (Str.translate (Str.maketrans (py "'") [8217]) (lower data)))
    as (ra & Hra & Hoka & Hadda).
  exists rk, ra. split_and!; try done.
  cbn [translate_tables alt_chars fmap list_fmap fst snd for_].
  rewrite Hadd.
  destruct (ignore_words (lower key)); simpl;
    destruct (Str.contains (py "'") (lower key)); simpl; try done;
    rewrite Hadda;
    by destruct (ignore_words (Str.translate _ (lower key))).
Qed.

Lemma load_line_malformed (ignore_words : str → bool) (line : str)
    (t : gmap str Misspelling) :
  Str.count (py "->") line ≠ 1%nat →
  load_line ignore_words line t = Raise ValueError t.
Proof.
  intros Hn. unfold load_line.
  destruct (Str.split (py "->") line) as [|key [|data [|]]] eqn:Hs; try done.
  destruct Hn. apply split_arrow_pair. eauto.
Qed.

Lemma load_line_cases (ignore_words : str → bool) (line : str)
    (t : gmap str Misspelling) :
  (Str.count (py "->") line = 1%nat
   ∧ ∃ t', load_line ignore_words line t = Ok t')
  ∨ (¬ Str.count (py "->") line = 1%nat
     ∧ load_line ignore_words line t = Raise ValueError t).
Proof.
  destruct (decide (Str.count (py "->") line = 1%nat)) as [Hn|Hn].
  - left. split; [done|].
    apply split_arrow_pair in Hn as (key & data & Hs).
    destruct (load_line_pair ignore_words line key data t Hs)
      as (rk & ra & _ & _ & _ & _ & ->). eauto.
  - right. split; [done|]. by apply load_line_malformed.
Qed.

(** A line writes nothing at an excluded key. *)
Lemma load_line_excluded (ignore_words : str → bool) (line k : str)
    (t : gmap str Misspelling) :
  ignore_words k = true →
  state_of (load_line ignore_words line t) !! k = t !! k.
Proof.
  intros Hk.
  destruct (load_line_cases ignore_words line t) as [[Hn _]|[_ ->]];
    [|done].
  apply split_arrow_pair in Hn as (key & data & Hs).
  destruct (load_line_pair ignore_words line key data t Hs)
    as (rk & ra & _ & _ & _ & _ & ->). simpl.
  assert (∀ k' r (t' : gmap str Misspelling),
    (if ignore_words k' then t' else <[k' := r]> t') !! k = t' !! k) as Hw.
  { intros k' r t'. destruct (ignore_words k') eqn:Hk'; [done|].
    rewrite lookup_insert_ne; [done|]. intros ->. congruence. }
  destruct (Str.contains _ _); by rewrite ?Hw.
Qed.

Lemma load_line_table_ok (ignore_words : str → bool) (line : str)
    (t : gmap str Misspelling) :
  table_ok t → table_ok (state_of (load_line ignore_words line t)).
Proof.
  intros Ht.
  destruct (load_line_cases ignore_words line t) as [[Hn _]|[_ ->]];
    [|done].
  apply split_arrow_pair in Hn as (key & data & Hs).
  destruct (load_line_pair ignore_words line key data t Hs)
    as (rk & ra & _ & _ & Hrk & Hra & ->). simpl.
  assert (∀ k' r (t' : gmap str Misspelling),
    record_ok r → table_ok t' →
    table_ok (if ignore_words k' then t' else <[k' := r]> t')) as Hw.
  { intros k' r t' Hr Ht'. destruct (ignore_words k'); [done|].
    by apply map_Forall_insert_2. }
  destruct (Str.contains _ _); auto.
Qed.

(** ** Facts about the load calls *)

Lemma load_lines_excluded (ignore_words : str → bool)
    (f : list str) (k : str) (t : gmap str Misspelling) :
  ignore_words k = true →
  state_of (for_ f (load_line ignore_words) t) !! k = t !! k.
Proof.
  intros Hk.
  apply (for_invariant (λ t' : gmap str Misspelling, t' !! k = t !! k));
    [|done].
  intros line t' <-. by apply load_line_excluded.
Qed.

Lemma load_lines_table_ok (ignore_words : str → bool)
    (f : list str) (t : gmap str Misspelling) :
  table_ok t → table_ok (state_of (for_ f (load_line ignore_words) t)).
Proof.
  apply (for_invariant table_ok). intros line t'. apply load_line_table_ok.
Qed.

Lemma state_of_lift {S T} (f : S → T) (r : result S) :
  state_of (lift f r) = f (state_of r).
Proof. by destruct r. Qed.

(** What [load_dictionary_from_file] can change and raise. *)
Lemma load_dictionary_from_file_frame (self : Spellchecker)
    (filename : str) (ignore_words : str → bool) :
  let r := load_dictionary_from_file self filename ignore_words in
  _builtin_loaded (state_of r) = _builtin_loaded self
  ∧ (table_ok (_misspellings self) → table_ok (_misspellings (state_of r)))
  ∧ (∀ e s', r = Raise e s' → e = ValueError ∨ e = OSError).
Proof.
  unfold load_dictionary_from_file. destruct (fs filename) as [f|]; simpl.
  - rewrite state_of_lift. simpl. split_and!; [done|..].
    + apply load_lines_table_ok.
    + intros e s'.
      destruct (for_ f (load_line ignore_words) (_misspellings self))
        as [t|e' t] eqn:Hfor; simpl; [done|].
      intros [= <- _].
      apply for_raise_inv in Hfor as (pre & x & post & s1 & _ & _ & Hx).
      destruct (load_line_cases ignore_words x s1) as [[_ [t' Ht']]|[_ Hr]];
        left; congruence.
  - split_and!; [done|done|]. intros e s' [= <- _]. by right.
Qed.

Lemma _load_builtin_dictionary_frame (self : Spellchecker)
    (name : str) (ignore_words : str → bool) :
  let r := _load_builtin_dictionary self name ignore_words in
  _builtin_loaded (state_of r) = _builtin_loaded self
  ∧ (table_ok (_misspellings self) → table_ok (_misspellings (state_of r)))
  ∧ (∀ e s', r = Raise e s' →
       e ≠ BuiltinDictionariesAlreadyLoadedError
       ∧ ∀ n, e = UnknownBuiltinDictionaryError n →
           n = name ∧ s' = self
           ∧ List.find (λ builtin, bool_decide (b_name builtin = name))
               _builtin_dictionaries = None).
Proof.
  unfold _load_builtin_dictionary.
  destruct (List.find _ _builtin_dictionaries) as [builtin|]; simpl.
  - destruct (load_dictionary_from_file_frame self
      (Str.path_join _data_root
         (py "dictionary" ++ b_suffix builtin ++ py ".txt")) ignore_words)
      as (Hl & Ht & He).
    split_and!; [done|done|]. intros e s' Hr.
    destruct (He e s' Hr) as [->| ->]; done.
  - split_and!; [done|done|]. intros e s' [= <- <-].
    split; [done|]. by intros n [= ->].
Qed.

Lemma load_builtins_loop_frame (self : Spellchecker)
    (names : list str) (ignore_words : str → bool) :
  let r := for_ names
             (λ name self, _load_builtin_dictionary self name ignore_words)
             self in
  _builtin_loaded (state_of r) = _builtin_loaded self
  ∧ (table_ok (_misspellings self) → table_ok (_misspellings (state_of r))).
Proof.
  simpl. apply (for_invariant (λ s,
    _builtin_loaded s = _builtin_loaded self
    ∧ (table_ok (_misspellings self) → table_ok (_misspellings s))));
    [|done].
  intros name s [Hl Ht].
  destruct (_load_builtin_dictionary_frame s name ignore_words)
    as (Hl' & Ht' & _).
  split; [congruence|auto].
Qed.

Lemma load_builtin_dictionaries_table_ok (self : Spellchecker)
    (names : list str) (ignore_words : str → bool) :
  table_ok (_misspellings self) →
  table_ok (_misspellings
              (state_of (load_builtin_dictionaries self names ignore_words))).
Proof.
  intros Ht. unfold load_builtin_dictionaries.
  destruct (_builtin_loaded self); [done|].
  destruct (load_builtins_loop_frame self (load_order names) ignore_words)
    as [_ Hok]. simpl in Hok.
  destruct (for_ _ _ self); simpl in *; auto.
Qed.

Lemma load_builtin_dictionaries_sealed (self : Spellchecker)
    (names : list str) (ignore_words : str → bool) :
  _builtin_loaded self = true →
  load_builtin_dictionaries self names ignore_words
  = Raise BuiltinDictionariesAlreadyLoadedError self.
Proof. intros Hl. unfold load_builtin_dictionaries. by rewrite Hl. Qed.

Lemma load_builtin_dictionaries_unsealed (self : Spellchecker)
    (names : list str) (ignore_words : str → bool) :
  _builtin_loaded self = false →
  load_builtin_dictionaries self names ignore_words
  = bind
      (for_ (load_order names)
         (λ name self, _load_builtin_dictionary self name ignore_words)
         self)
      (λ self, Ok (set_builtin_loaded self true)).
Proof. intros Hl. unfold load_builtin_dictionaries. by rewrite Hl. Qed.

(** ** Exclusion of keys *)

(** C1, as amended.  A load writes nothing at a key of [ignore_words]:
    the entry at an excluded key, present or absent, is after the load
    what it was before, whether the key stands in a line or is the
    alternate of another key.  The alternate of a line is excluded by its
    own membership in [ignore_words] and not by that of the key: a line
    whose key holds an apostrophe and whose alternate key is not in
    [ignore_words] writes the record of the translated data at the
    alternate key, also when the key itself is excluded. *)
Theorem excluded_key_untouched (self : Spellchecker) (filename : str)
    (ignore_words : str → bool) :
  (∀ k, ignore_words k = true →
     _misspellings
       (state_of (load_dictionary_from_file self filename ignore_words)) !! k
     = _misspellings self !! k)
  ∧ (∀ line key data t,
       Str.split (py "->") line = [key; data] →
       39 ∈ lower key →
       ignore_words
         (Str.translate (Str.maketrans (py "'") [8217]) (lower key))
       = false →
       ∃ t', load_line ignore_words line t = Ok t'
         ∧ t' !! Str.translate (Str.maketrans (py "'") [8217]) (lower key)
           = record_of
               (Str.translate (Str.maketrans (py "'") [8217]) (lower data))
         ∧ is_Some
             (t' !! Str.translate (Str.maketrans (py "'") [8217]) (lower key))).
Proof.
  split.
  - intros k Hk. unfold load_dictionary_from_file.
    destruct (fs filename) as [f|]; [|done].
    rewrite state_of_lift. simpl. by apply load_lines_excluded.
  - intros line key data t Hs Hkey Halt.
    destruct (load_line_pair ignore_words line key data t Hs)
      as (rk & ra & _ & Hra & _ & _ & ->).
    eexists. split; [done|]. simpl.
    apply (contains_char 39) in Hkey. change (py "'") with [39] in *.
    rewrite Hkey, Halt, lookup_insert_eq, Hra. eauto.
Qed.

(** ** Malformed records *)

(** C2, as amended.  A file that opens fails to load with ValueError
    exactly when one of its lines does not hold the arrow once: a line
    without an arrow and a line with two or more are both rejected.  A
    line that holds the arrow once unpacks into the text before the arrow
    as key and the text after it as data. *)
Theorem malformed_record_iff (self : Spellchecker) (filename : str)
    (ignore_words : str → bool) (f : list str) :
  fs filename = Some f →
  ((∃ s', load_dictionary_from_file self filename ignore_words
          = Raise ValueError s')
   ↔ Exists (λ line, Str.count (py "->") line ≠ 1%nat) f)
  ∧ Forall (λ line,
      Str.count (py "->") line = 1%nat →
      ∃ key data,
        line = key ++ py "->" ++ data
        ∧ Str.split (py "->") line = [key; data]) f.
Proof.
  intros Hf. split.
  - unfold load_dictionary_from_file. rewrite Hf.
    rewrite <-(for_raise_iff (λ line, Str.count (py "->") line = 1%nat)
                 ValueError f (load_line ignore_words) (_misspellings self))
      by (intros line t; apply load_line_cases).
    split.
    + intros [s' Hs'].
      destruct (for_ f (load_line ignore_words) (_misspellings self))
        as [t|e t]; simpl in Hs'; [done|]. simplify_eq. eauto.
    + intros [t ->]. simpl. eauto.
  - apply Forall_forall. intros line _ Hn.
    apply split_arrow_pair in Hn as (key & data & Hs).
    exists key, data. split; [|done].
    by apply split_arrow_between in Hs as [-> _].
Qed.

(** ** Last write wins *)

(** C3.  Loading [key] with the data of a record A and then with the data
    of a record B leaves the table as if A had never been loaded, with
    the record of B at [key]; this holds for the two writes of
    [_add_misspelling], for two lines of one file, and for two files
    loaded one after the other, whatever the two data fields hold. *)
Theorem last_write_wins (key dataA dataB : str) :
  (∀ t,
     bind (_add_misspelling key dataA t) (_add_misspelling key dataB)
     = _add_misspelling key dataB t
     ∧ state_of
         (bind (_add_misspelling key dataA t) (_add_misspelling key dataB))
       !! key = record_of dataB)
  ∧ (∀ ignore_words lineA lineB keyA keyB t,
       Str.split (py "->") lineA = [keyA; dataA] →
       Str.split (py "->") lineB = [keyB; dataB] →
       lower keyA = key → lower keyB = key →
       ignore_words key = false →
       ∃ t', for_ [lineA; lineB] (load_line ignore_words) t = Ok t'
         ∧ t' !! key = record_of (lower dataB)
         ∧ is_Some (t' !! key))
  ∧ (∀ self ignoreA ignoreB fileA fileB lineA lineB keyA keyB,
       fs fileA = Some [lineA] → fs fileB = Some [lineB] →
       Str.split (py "->") lineA = [keyA; dataA] →
       Str.split (py "->") lineB = [keyB; dataB] →
       lower keyA = key → lower keyB = key →
       ignoreB key = false →
       ∃ s1 s2,
         load_dictionary_from_file self fileA ignoreA = Ok s1
         ∧ load_dictionary_from_file s1 fileB ignoreB = Ok s2
         ∧ _misspellings s2 !! key = record_of (lower dataB)
         ∧ is_Some (_misspellings s2 !! key)).
Proof.
  assert (∀ ignore_words line keyB t,
    Str.split (py "->") line = [keyB; dataB] → lower keyB = key →
    ignore_words key = false →
    ∃ t', load_line ignore_words line t = Ok t'
      ∧ t' !! key = record_of (lower dataB) ∧ is_Some (t' !! key)) as Hlast.
  { intros ignore_words line keyB t Hs <- Hk.
    destruct (load_line_pair ignore_words line keyB dataB t Hs)
      as (rk & ra & Hrk & _ & _ & _ & ->).
    eexists. split; [done|]. simpl. rewrite Hk, Hrk.
    destruct (Str.contains (py "'") (lower keyB)) eqn:Hc;
      [|rewrite lookup_insert_eq; eauto].
    apply (contains_char 39), translate_alt_ne in Hc.
    destruct (ignore_words (Str.translate _ _));
      rewrite ?(lookup_insert_ne _ (Str.translate _ _)) by done;
      rewrite lookup_insert_eq; eauto. }
  split_and!.
  - intros t.
    destruct (_add_misspelling_ok dataA) as (ra & _ & _ & Ha).
    destruct (_add_misspelling_ok dataB) as (rb & Hrb & _ & Hb).
    rewrite Ha. simpl. rewrite !Hb, insert_insert_eq. simpl.
    by rewrite lookup_insert_eq.
  - intros ignore_words lineA lineB keyA keyB t HsA HsB HkA HkB Hk.
    destruct (load_line_pair ignore_words lineA keyA dataA t HsA)
      as (? & ? & _ & _ & _ & _ & HA).
    simpl. rewrite HA. simpl.
    match goal with |- context [load_line _ _ ?t1] =>
      destruct (Hlast ignore_words lineB keyB t1 HsB HkB Hk)
        as (t' & -> & Ht') end.
    eauto.
  - intros self ignoreA ignoreB fileA fileB lineA lineB keyA keyB
      HfA HfB HsA HsB HkA HkB Hk.
    unfold load_dictionary_from_file. rewrite HfA.
    destruct (load_line_pair ignoreA lineA keyA dataA (_misspellings self) HsA)
      as (? & ? & _ & _ & _ & _ & HA).
    simpl. rewrite HA. simpl.
    match goal with |- context [Ok (set_misspellings self ?t1)] =>
      destruct (Hlast ignoreB lineB keyB t1 HsB HkB Hk)
        as (t' & Ht' & Hrec) end.
    eexists. exists (set_misspellings self t'). split; [done|].
    rewrite HfB. simpl. rewrite Ht'. simpl. done.
Qed.

(** ** The seal *)

Lemma load_builtin_dictionaries_seals (self s' : Spellchecker)
    (names : list str) (ignore_words : str → bool) :
  load_builtin_dictionaries self names ignore_words = Ok s' →
  _builtin_loaded s' = true.
Proof.
  unfold load_builtin_dictionaries. destruct (_builtin_loaded self); [done|].
  destruct (for_ _ _ self); simpl; [|done]. by intros [= <-].
Qed.

(** C5.  Once a call of [load_builtin_dictionaries] has returned, every
    further call on the engine raises
    [BuiltinDictionariesAlreadyLoadedError] and leaves the engine, its
    table included, as the first call left it. *)
Theorem seal_guard (self s' : Spellchecker)
    (names names' : list str) (ignore_words ignore_words' : str → bool) :
  load_builtin_dictionaries self names ignore_words = Ok s' →
  load_builtin_dictionaries s' names' ignore_words'
  = Raise BuiltinDictionariesAlreadyLoadedError s'.
Proof.
  intros Hfirst. apply load_builtin_dictionaries_sealed.
  by apply load_builtin_dictionaries_seals in Hfirst.
Qed.

(** ** The invariant of the table *)

Lemma __init___table_ok (builtin_dictionaries : option (list str)) :
  table_ok (_misspellings (state_of (__init__ builtin_dictionaries))).
Proof.
  unfold __init__. destruct builtin_dictionaries as [[|name names]|];
    try apply map_Forall_empty.
  apply load_builtin_dictionaries_table_ok, map_Forall_empty.
Qed.

Lemma run_call_table_ok (self : Spellchecker) (c : load_call) :
  table_ok (_misspellings self) →
  table_ok (_misspellings (state_of (run_call self c))).
Proof.
  destruct c as [filename ignore_words|names ignore_words]; simpl.
  - apply load_dictionary_from_file_frame.
  - apply load_builtin_dictionaries_table_ok.
Qed.

Lemma run_calls_table_ok (self : Spellchecker) (cs : list load_call) :
  table_ok (_misspellings self) →
  table_ok (_misspellings (run_calls self cs)).
Proof.
  unfold run_calls. revert self.
  induction cs as [|c cs IH]; intros s Hs; simpl; [done|].
  apply IH. by apply run_call_table_ok.
Qed.

(** C8.  After the construction of an engine and any sequence of load
    calls on it, a call that raised included, every record of the table
    has at least one candidate, and has an empty reason when its [fix]
    flag is set. *)
Theorem stored_records_invariant
    (builtin_dictionaries : option (list str)) (cs : list load_call)
    (key : str) (r : Misspelling) :
  _misspellings (run_calls (state_of (__init__ builtin_dictionaries)) cs)
    !! key = Some r →
  (1 ≤ length (candidates r))%nat ∧ (fix_ r = true → reason r = []).
Proof.
  intros Hr.
  assert (table_ok (_misspellings
    (run_calls (state_of (__init__ builtin_dictionaries)) cs))) as Hok.
  { apply run_calls_table_ok, __init___table_ok. }
  destruct (Hok key r Hr) as [Hc Hf]. split; [|done].
  destruct (candidates r); [done|simpl; lia].
Qed.

(** ** The order of the built-in sources *)

Lemma load_order_elem (names : list str) (n : str) :
  n ∈ load_order names ↔ n ∈ names.
Proof.
  unfold load_order, Str.sorted.
  by rewrite merge_sort_Permutation, elem_of_elements, elem_of_list_to_set.
Qed.

Lemma load_order_sorted (names : list str) :
  StronglySorted Str.lt (load_order names).
Proof. apply sorted_strict, NoDup_elements. Qed.



(** ** An unknown built-in source *)

(** C9.  When [load_builtin_dictionaries] raises
    [UnknownBuiltinDictionaryError] for [name], then [name] was requested
    and has no entry in [_builtin_dictionaries]; the engine is left
    unsealed, so that a further call does not raise
    [BuiltinDictionariesAlreadyLoadedError]; and the engine is left as
    the loads of the requested sources that sort before [name], done in
    order and all completed, have made it. *)
Theorem unknown_builtin_not_atomic (self s' : Spellchecker)
    (names : list str) (ignore_words : str → bool) (name : str) :
  load_builtin_dictionaries self names ignore_words
  = Raise (UnknownBuiltinDictionaryError name) s' →
  name ∈ names
  ∧ List.find (λ builtin, bool_decide (b_name builtin = name))
      _builtin_dictionaries = None
  ∧ _builtin_loaded s' = false
  ∧ (∀ names' ignore_words' s'',
       load_builtin_dictionaries s' names' ignore_words'
       ≠ Raise BuiltinDictionariesAlreadyLoadedError s'')
  ∧ for_ (filter (λ n, Str.lt n name) (load_order names))
      (λ n self, _load_builtin_dictionary self n ignore_words) self
    = Ok s'.
Proof.
  intros Hr.
  destruct (_builtin_loaded self) eqn:Hl.
  { by rewrite load_builtin_dictionaries_sealed in Hr. }
  rewrite load_builtin_dictionaries_unsealed in Hr by done.
  destruct (for_ (load_order names) _ self) as [s|e s] eqn:Hfor;
    simpl in Hr; [done|]. simplify_eq.
  apply for_raise_inv in Hfor as (pre & x & post & s1 & Hord & Hpre & Hx).
  destruct (_load_builtin_dictionary_frame s1 x ignore_words)
    as (_ & _ & He).
  destruct (He _ _ Hx) as [_ Hu].
  destruct (Hu name eq_refl) as (-> & -> & Hfind).
  assert (_builtin_loaded s1 = false) as Hl1.
  { destruct (load_builtins_loop_frame self pre ignore_words) as [Hl' _].
    simpl in Hl'. rewrite Hpre in Hl'. simpl in Hl'. congruence. }
  split_and!.
  - apply load_order_elem. rewrite Hord, elem_of_app, elem_of_cons. auto.
  - done.
  - done.
  - intros names' ignore_words' s'' Hr'.
    rewrite load_builtin_dictionaries_unsealed in Hr' by done.
    destruct (for_ (load_order names') _ s1) as [s|e s] eqn:Hfor;
      simpl in Hr'; [done|]. simplify_eq.
    apply for_raise_inv in Hfor as (? & y & ? & s2 & _ & _ & Hy).
    destruct (_load_builtin_dictionary_frame s2 y ignore_words')
      as (_ & _ & He').
    by destruct (He' _ _ Hy) as [? _].
  - pose proof (load_order_sorted names) as Hs. rewrite Hord in Hs |- *.
    by rewrite filter_lt_sorted.
Qed.

(** ** Facts about [spellcheck_line] *)

Lemma generate_yielded {T A} (body : T → turn A) (ts : list T) (a : A) :
  a ∈ yielded (generate body ts) → ∃ t, t ∈ ts ∧ body t = Yield a.
Proof.
  induction ts as [|t ts IH]; simpl; [by intros ?%elem_of_nil|].
  destruct (body t) as [|b|e] eqn:Ht; simpl.
  - intros (t' & ? & ?)%IH. exists t'. split; [by right|done].
  - intros [->|(t' & ? & ?)%IH]%elem_of_cons.
    + exists t. split; [by left|done].
    + exists t'. split; [by right|done].
  - by intros ?%elem_of_nil.
Qed.

Lemma generate_complete {T A} (body : T → turn A) (ts : list T)
    (t : T) (a : A) :
  Forall (λ t, ∀ e, body t ≠ Throw e) ts →
  t ∈ ts → body t = Yield a → a ∈ yielded (generate body ts).
Proof.
  intros Hts Ht Ha. induction ts as [|t' ts IH]; [by apply elem_of_nil in Ht|].
  apply Forall_cons in Hts as [Ht' Hts]. simpl.
  apply elem_of_cons in Ht as [<-|Ht].
  - rewrite Ha. simpl. by left.
  - destruct (body t') as [|b|e] eqn:Hb; simpl.
    + by apply IH.
    + right. by apply IH.
    + by destruct (Ht' e).
Qed.

Lemma startswith_escape (c : N) (rest : str) :
  Str.startswith_any escape_letters (c :: rest) = true
  ↔ c ∈ [97; 98; 102; 110; 114; 116; 118].
Proof.
  unfold Str.startswith_any.
  change escape_letters with [[97]; [98]; [102]; [110]; [114]; [116]; [118]].
  cbn [existsb Str.startswith].
  rewrite !andb_true_r, orb_false_r, !orb_true_iff, !N.eqb_eq, !elem_of_cons,
    elem_of_nil.
  split.
  - intros H.
    repeat (destruct H as [<-|H];
            [solve [repeat (first [done|by left|right])]|]).
    subst. repeat (first [by left|right]).
  - intros H.
    repeat (destruct H as [->|H];
            [solve [repeat (first [done|by left|right])]|]).
    destruct H.
Qed.

Lemma spellcheck_token_yield (self : Spellchecker) (line : str)
    (extra_words_to_ignore : str → bool) (t : Token)
    (d : DetectedMisspelling) :
  spellcheck_token self line extra_words_to_ignore t = Yield d →
  token d = t ∧ word d = group t ∧ lword d = lower (group t)
  ∧ _misspellings self !! lower (group t) = Some (misspelling d).
Proof.
  unfold spellcheck_token.
  destruct (ignore_words_cased self (group t)); [done|].
  destruct (_misspellings self !! lower (group t)) as [m|]; [|done].
  destruct (extra_words_to_ignore (lower (group t))); simpl; [done|].
  destruct (0 <=? start t - 1)%Z.
  - destruct (line !! Z.to_nat (start t - 1)) as [c|]; [|done].
    destruct (_ && _); [done|]. by intros [= <-].
  - by intros [= <-].
Qed.

Lemma spellcheck_token_no_throw (self : Spellchecker) (line : str)
    (extra_words_to_ignore : str → bool) (t : Token) (e : exn) :
  (start t ≤ Z.of_nat (length line))%Z →
  spellcheck_token self line extra_words_to_ignore t ≠ Throw e.
Proof.
  intros Hstart. unfold spellcheck_token.
  destruct (ignore_words_cased self (group t)); [done|].
  destruct (_misspellings self !! lower (group t)) as [m|]; [|done].
  destruct (extra_words_to_ignore (lower (group t))); simpl; [done|].
  destruct (Z.leb_spec 0 (start t - 1)) as [Hpos|]; [|done].
  destruct (lookup_lt_is_Some_2 line (Z.to_nat (start t - 1))) as [c ->];
    [lia|].
  by destruct (_ && _).
Qed.

(** What [spellcheck_token] does with a token that is not ignored and
    whose lowercase form is a key, according to the escape test. *)
Lemma spellcheck_token_emit (self : Spellchecker) (line : str)
    (extra_words_to_ignore : str → bool) (t : Token) (m : Misspelling) :
  ignore_words_cased self (group t) = false →
  extra_words_to_ignore (lower (group t)) = false →
  _misspellings self !! lower (group t) = Some m →
  (start t ≤ Z.of_nat (length line))%Z →
  Str.startswith_any escape_letters (group t) = false
  ∨ is_Some (_misspellings self !! drop 1 (lower (group t))) →
  spellcheck_token self line extra_words_to_ignore t
  = Yield {| word := group t; lword := lower (group t);
             misspelling := m; token := t |}.
Proof.
  intros Hcased Hextra Hm Hstart Hesc. unfold spellcheck_token.
  rewrite Hcased, Hm, Hextra. cbn [negb].
  destruct (Z.leb_spec 0 (start t - 1)) as [Hpos|]; [|done].
  destruct (lookup_lt_is_Some_2 line (Z.to_nat (start t - 1))) as [c ->];
    [lia|].
  destruct Hesc as [->|[m' Hm']].
  - by rewrite andb_false_r.
  - rewrite Hm'. rewrite bool_decide_false by done. by rewrite andb_false_r.
Qed.

(** ** Escape sequences *)

(** C7.  Take a token of the line whose lowercase form is a key of the
    table, that stands right after a backslash and starts with one of
    the letters a, b, f, n, r, t, v (code points 97, 98, 102, 110, 114,
    116, 118).
    - If the lowercase form without its first character is not a key,
      the token is skipped: no issue yielded by the scan carries it.
    - If that tail is a key, the token is reported, with its text, its
      lowercase form and the record of the table, provided neither
      ignore set holds it and the tokenizer keeps its offsets within
      the line. *)
Theorem escape_suppression (self : Spellchecker) (line : str)
    (tokenizer : str → list Token)
    (extra_words_to_ignore : str → bool)
    (tok : Token) (c : N) (rest : str) :
  tok ∈ tokenizer line →
  is_Some (_misspellings self !! lower (group tok)) →
  (1 ≤ start tok)%Z →
  line !! Z.to_nat (start tok - 1) = Some 92 →
  group tok = c :: rest →
  c ∈ [97; 98; 102; 110; 114; 116; 118] →
  (_misspellings self !! drop 1 (lower (group tok)) = None →
   ∀ d, d ∈ yielded (spellcheck_line self line tokenizer
                       extra_words_to_ignore) →
        token d ≠ tok)
  ∧ (is_Some (_misspellings self !! drop 1 (lower (group tok))) →
     ignore_words_cased self (group tok) = false →
     extra_words_to_ignore (lower (group tok)) = false →
     Forall (λ t, (start t ≤ Z.of_nat (length line))%Z) (tokenizer line) →
     ∃ d, d ∈ yielded (spellcheck_line self line tokenizer
                         extra_words_to_ignore)
       ∧ token d = tok ∧ word d = group tok
       ∧ lword d = lower (group tok)
       ∧ _misspellings self !! lower (group tok) = Some (misspelling d)).
Proof.
  intros Htok [m Hm] Hstart Hback Hword Hc. split.
  - intros Htail d Hd Heq.
    apply generate_yielded in Hd as (t & _ & Ht).
    apply spellcheck_token_yield in Ht as Ht'. destruct Ht' as (Ht' & _).
    rewrite Heq in Ht'. subst t. revert Ht. unfold spellcheck_token.
    destruct (ignore_words_cased self (group tok)); [done|].
    rewrite Hm.
    destruct (extra_words_to_ignore (lower (group tok))); [done|].
    cbn [negb]. destruct (Z.leb_spec 0 (start tok - 1)); [|lia].
    rewrite Hback, Htail, Hword.
    apply (startswith_escape c rest) in Hc. rewrite Hc.
    by rewrite bool_decide_true.
  - intros Htail Hcased Hextra Hin.
    exists {| word := group tok; lword := lower (group tok);
              misspelling := m; token := tok |}.
    split; [|done].
    unfold spellcheck_line. eapply generate_complete; [|exact Htok|].
    + eapply Forall_impl; [exact Hin|]. intros t Ht e.
      by apply spellcheck_token_no_throw.
    + apply spellcheck_token_emit; try done.
      * rewrite Forall_forall in Hin. by apply Hin.
      * by right.
Qed.

(** C10.  The escape test reads the first character of the token as
    written, not of its lowercase form.  A token whose first character is
    not one of the lowercase letters a, b, f, n, r, t, v, as is every
    uppercase letter, and whose lowercase form is a key of the table is
    reported, whether or not it stands after a backslash and whether or
    not its tail is a key, provided neither ignore set holds it and the
    tokenizer keeps its offsets within the line. *)
Theorem uppercase_not_suppressed (self : Spellchecker) (line : str)
    (tokenizer : str → list Token)
    (extra_words_to_ignore : str → bool)
    (tok : Token) (c : N) (rest : str) (m : Misspelling) :
  tok ∈ tokenizer line →
  group tok = c :: rest →
  c ∉ [97; 98; 102; 110; 114; 116; 118] →
  _misspellings self !! lower (group tok) = Some m →
  ignore_words_cased self (group tok) = false →
  extra_words_to_ignore (lower (group tok)) = false →
  Forall (λ t, (start t ≤ Z.of_nat (length line))%Z) (tokenizer line) →
  {| word := group tok; lword := lower (group tok);
     misspelling := m; token := tok |}
  ∈ yielded (spellcheck_line self line tokenizer extra_words_to_ignore).
Proof.
  intros Htok Hword Hc Hm Hcased Hextra Hin.
  unfold spellcheck_line. eapply generate_complete; [|exact Htok|].
  - eapply Forall_impl; [exact Hin|]. intros t Ht e.
    by apply spellcheck_token_no_throw.
  - apply spellcheck_token_emit; try done.
    + rewrite Forall_forall in Hin. by apply Hin.
    + left. rewrite Hword.
      destruct (Str.startswith_any escape_letters (c :: rest)) eqn:Hsw;
        [|done].
      by apply startswith_escape in Hsw.
Qed.

(** * Further properties of the module *)

(** ** More facts about the string operations *)

Lemma lstrip_length (s : str) : (length (Str.lstrip s) ≤ length s)%nat.
Proof.
  induction s as [|c s IH]; simpl; [done|].
  destruct (Str.isspace c); simpl; lia.
Qed.

Lemma lstrip_prefix_id (u v : str) :
  Str.lstrip (u ++ v) = u ++ v → Str.lstrip u = u.
Proof.
  destruct u as [|c u]; [done|]. simpl.
  destruct (Str.isspace c); [|done].
  intros Heq. pose proof (lstrip_length (u ++ v)) as Hlen.
  rewrite Heq in Hlen. simpl in Hlen. lia.
Qed.

Lemma rstrip_suffix_id (u v : str) :
  Str.rstrip (u ++ v) = u ++ v → Str.rstrip v = v.
Proof.
  unfold Str.rstrip. intros Heq.
  apply (f_equal reverse) in Heq.
  rewrite reverse_involutive, reverse_app in Heq.
  apply lstrip_prefix_id in Heq. by rewrite Heq, reverse_involutive.
Qed.

Lemma rstrip_strip (s : str) : Str.rstrip (Str.strip s) = Str.strip s.
Proof. apply rstrip_rstrip. Qed.

Lemma lstrip_elem (c : N) (s : str) : c ∈ Str.lstrip s → c ∈ s.
Proof.
  destruct (lstrip_decomp s) as (ws & Hs & _). rewrite Hs at 2.
  rewrite elem_of_app. auto.
Qed.

Lemma strip_elem_1 (c : N) (s : str) : c ∈ Str.strip s → c ∈ s.
Proof.
  destruct (strip_decomp s) as (ws1 & ws2 & Hs & _). rewrite Hs at 2.
  rewrite !elem_of_app. auto.
Qed.

(** The commas of a text: whitespace holds none, so trimming keeps them. *)
Lemma filter_comma_space (ws : str) :
  Forall (λ c, Str.isspace c = true) ws → filter (λ c, c = 44) ws = [].
Proof.
  induction 1 as [|c ws Hc _ IH]; [done|].
  rewrite filter_cons_False; [done|]. by intros ->.
Qed.

Lemma filter_comma_strip (s : str) :
  filter (λ c, c = 44) (Str.strip s) = filter (λ c, c = 44) s.
Proof.
  destruct (strip_decomp s) as (ws1 & ws2 & Hs & H1 & H2).
  rewrite Hs at 2. rewrite !filter_app.
  rewrite (filter_comma_space ws1), (filter_comma_space ws2) by done.
  by rewrite app_nil_r.
Qed.

Lemma filter_comma_notin (s : str) : 44 ∉ s → filter (λ c, c = 44) s = [].
Proof.
  induction s as [|c s IH]; [done|].
  intros [Hc Hs]%not_elem_of_cons.
  rewrite filter_cons_False by done. by apply IH.
Qed.

Lemma split_go_char_length (c : N) (acc s : str) :
  length (Str.split_go [c] 0 acc s) = S (length (filter (λ x, x = c) s)).
Proof.
  revert acc. induction s as [|b s IH]; intros acc; [done|].
  cbn [Str.split_go Str.startswith]. rewrite andb_true_r.
  destruct (N.eqb_spec c b) as [->|Hne].
  - cbn [length Nat.sub]. rewrite filter_cons_True by done. simpl.
    by rewrite IH.
  - rewrite filter_cons_False by done. apply IH.
Qed.

(** ** The shape of a stored record *)

(** X1.  Whatever the data field, [_add_misspelling] returns, and the
    record it stores at [key] is well formed: its [fix] flag is set exactly
    when the data holds no comma; no candidate holds a comma, and every
    candidate is trimmed; the reason holds no comma and is trimmed. *)
Theorem stored_record_shape (key data : str) (t : gmap str Misspelling) :
  ∃ r,
    _add_misspelling key data t = Ok (<[key := r]> t)
    ∧ (fix_ r = true ↔ 44 ∉ data)
    ∧ Forall (λ c, (44 ∉ c) ∧ Str.strip c = c) (candidates r)
    ∧ (44 ∉ reason r)
    ∧ Str.strip (reason r) = reason r.
Proof.
  destruct (decide (44 ∈ data)) as [Hd|Hd].
  - apply (strip_elem 44 data) in Hd as Hd'; [|done].
    apply elem_of_last_cut in Hd' as (a & b & Hab & Hb).
    exists {| candidates := Str.strip <$> Str.split (py ",") a;
              fix_ := false;
              reason := Str.lstrip b |}.
    split; [by apply _add_misspelling_comma|]. simpl.
    split_and!.
    + split; [done|]. by intros [].
    + apply Forall_fmap.
      destruct (split_char_spec 44 a) as (_ & Hfree & _).
      change (py ",") with [44].
      eapply Forall_impl; [exact Hfree|]. intros seg Hseg. simpl.
      split; [|apply strip_strip]. by intros ?%strip_elem_1.
    + by intros ?%lstrip_elem.
    + unfold Str.strip. rewrite lstrip_lstrip.
      destruct (lstrip_decomp b) as (ws & Hws & _).
      apply (rstrip_suffix_id (a ++ 44 :: ws)).
      rewrite <-app_assoc. simpl. rewrite <-Hws, <-Hab. apply rstrip_strip.
  - exists {| candidates := [Str.strip data]; fix_ := true; reason := [] |}.
    split; [by apply _add_misspelling_plain|]. simpl.
    split_and!.
    + done.
    + constructor; [|done]. split; [|apply strip_strip].
      by intros ?%strip_elem_1.
    + by intros ?%elem_of_nil.
    + done.
Qed.

(** X2.  A data field with [n] commas, [n] at least one, gives a record
    with [n] candidates, the text after the last comma being the reason; a
    data field without a comma gives one candidate. *)
Theorem candidates_count (key data : str) (t : gmap str Misspelling) :
  ∃ r,
    _add_misspelling key data t = Ok (<[key := r]> t)
    ∧ length (candidates r)
      = Nat.max 1 (length (filter (λ c, c = 44) data)).
Proof.
  destruct (decide (44 ∈ data)) as [Hd|Hd].
  - apply (strip_elem 44 data) in Hd as Hd'; [|done].
    apply elem_of_last_cut in Hd' as (a & b & Hab & Hb).
    exists {| candidates := Str.strip <$> Str.split (py ",") a;
              fix_ := false;
              reason := Str.lstrip b |}.
    split; [by apply _add_misspelling_comma|]. simpl.
    rewrite length_fmap. unfold Str.split. change (py ",") with [44].
    rewrite split_go_char_length.
    rewrite <-(filter_comma_strip data), Hab, filter_app.
    rewrite filter_cons_True by done.
    rewrite (filter_comma_notin b) by done.
    rewrite length_app. simpl. lia.
  - exists {| candidates := [Str.strip data]; fix_ := true; reason := [] |}.
    split; [by apply _add_misspelling_plain|]. simpl.
    by rewrite filter_comma_notin.
Qed.

(** ** The alternate of a record *)

Lemma alt_isspace (c : N) :
  Str.isspace (if c =? 39 then 8217 else c) = Str.isspace c.
Proof. by destruct (N.eqb_spec c 39) as [->|]. Qed.

Lemma alt_comma (c : N) : (if c =? 39 then 8217 else c) = 44 ↔ c = 44.
Proof. destruct (N.eqb_spec c 39) as [->|]; [split; discriminate|done]. Qed.

Lemma lstrip_alt (s : str) :
  Str.lstrip ((λ c, if c =? 39 then 8217 else c) <$> s)
  = (λ c, if c =? 39 then 8217 else c) <$> Str.lstrip s.
Proof.
  induction s as [|c s IH]; [done|].
  cbn [fmap list_fmap Str.lstrip]. rewrite alt_isspace.
  by destruct (Str.isspace c).
Qed.

Lemma strip_alt (s : str) :
  Str.strip ((λ c, if c =? 39 then 8217 else c) <$> s)
  = (λ c, if c =? 39 then 8217 else c) <$> Str.strip s.
Proof.
  unfold Str.strip, Str.rstrip.
  by rewrite lstrip_alt, <-fmap_reverse, lstrip_alt, fmap_reverse.
Qed.

Lemma split_go_comma_alt (acc s : str) :
  Str.split_go [44] 0 ((λ c, if c =? 39 then 8217 else c) <$> acc)
    ((λ c, if c =? 39 then 8217 else c) <$> s)
  = (λ seg : str, (λ c, if c =? 39 then 8217 else c) <$> seg)
    <$> Str.split_go [44] 0 acc s.
Proof.
  revert acc. induction s as [|c s IH]; intros acc.
  - simpl. by rewrite fmap_reverse.
  - cbn [fmap list_fmap Str.split_go Str.startswith]. rewrite !andb_true_r.
    destruct (N.eqb_spec 44 c) as [<-|Hc].
    + cbn [N.eqb Pos.eqb length Nat.sub]. rewrite fmap_cons, fmap_reverse.
      f_equal. apply (IH []).
    + destruct (N.eqb_spec 44 (if c =? 39 then 8217 else c)) as [Heq|_].
      * symmetry in Heq. apply (proj1 (alt_comma c)) in Heq. by subst.
      * apply (IH (c :: acc)).
Qed.

Lemma elem_of_alt_comma (s : str) :
  44 ∈ (λ c, if c =? 39 then 8217 else c) <$> s ↔ 44 ∈ s.
Proof.
  rewrite list_elem_of_fmap. split.
  - intros (c & Hc & Hin). symmetry in Hc.
    by apply (proj1 (alt_comma c)) in Hc as ->.
  - intros Hin. by exists 44.
Qed.

Lemma record_of_comma (data a b : str) :
  Str.strip data = a ++ 44 :: b → 44 ∉ b →
  record_of data
  = Some {| candidates := Str.strip <$> Str.split (py ",") a;
            fix_ := false;
            reason := Str.lstrip b |}.
Proof.
  intros Hab Hb. unfold record_of.
  rewrite (_add_misspelling_comma _ _ a b) by done. apply lookup_insert_eq.
Qed.

Lemma record_of_plain (data : str) :
  44 ∉ data →
  record_of data
  = Some {| candidates := [Str.strip data]; fix_ := true; reason := [] |}.
Proof.
  intros Hd. unfold record_of.
  rewrite _add_misspelling_plain by done. apply lookup_insert_eq.
Qed.

Lemma record_of_alt (data : str) (r : Misspelling) :
  record_of data = Some r →
  record_of ((λ c, if c =? 39 then 8217 else c) <$> data)
  = Some {| candidates :=
              (λ seg : str, (λ c, if c =? 39 then 8217 else c) <$> seg)
              <$> candidates r;
            fix_ := fix_ r;
            reason := (λ c, if c =? 39 then 8217 else c) <$> reason r |}.
Proof.
  destruct (decide (44 ∈ data)) as [Hd|Hd].
  - apply (strip_elem 44 data) in Hd as Hd'; [|done].
    apply elem_of_last_cut in Hd' as (a & b & Hab & Hb).
    rewrite (record_of_comma data a b) by done. intros [= <-]. simpl.
    rewrite (record_of_comma _
               ((λ c, if c =? 39 then 8217 else c) <$> a)
               ((λ c, if c =? 39 then 8217 else c) <$> b)).
    + f_equal. f_equal; [|by rewrite lstrip_alt].
      change (py ",") with [44]. unfold Str.split.
      pose proof (split_go_comma_alt [] a) as Hsplit.
      rewrite fmap_nil in Hsplit. rewrite Hsplit, <-!list_fmap_compose.
      apply list_fmap_ext. intros _ seg _. simpl. apply strip_alt.
    + by rewrite strip_alt, Hab, fmap_app.
    + by rewrite elem_of_alt_comma.
  - rewrite (record_of_plain data) by done. intros [= <-]. simpl.
    rewrite record_of_plain by by rewrite elem_of_alt_comma.
    by rewrite strip_alt.
Qed.

(** The record of the translated data is the record of the data,
    translated. *)
Lemma record_of_translate (data : str) (r : Misspelling) :
  record_of data = Some r →
  record_of (Str.translate (Str.maketrans (py "'") [8217]) data)
  = Some {| candidates :=
              Str.translate (Str.maketrans (py "'") [8217]) <$> candidates r;
            fix_ := fix_ r;
            reason := Str.translate (Str.maketrans (py "'") [8217]) (reason r) |}.
Proof.
  intros Hr. rewrite !translate_alt, (record_of_alt data r Hr).
  f_equal. f_equal. apply list_fmap_ext. intros _ seg _.
  by rewrite translate_alt.
Qed.

(** X3.  A line whose key holds an apostrophe, with neither the key nor
    its alternate excluded, writes two entries: the record of the data at
    the key, and at the alternate key the same record with every apostrophe
    of its candidates and of its reason replaced by U+2019, the [fix] flag
    being the same. *)
Theorem alternate_expansion (ignore_words : str → bool)
    (line key data : str) (t : gmap str Misspelling) :
  Str.split (py "->") line = [key; data] →
  39 ∈ lower key →
  ignore_words (lower key) = false →
  ignore_words (Str.translate (Str.maketrans (py "'") [8217]) (lower key))
  = false →
  ∃ r,
    record_of (lower data) = Some r
    ∧ load_line ignore_words line t
      = Ok (<[Str.translate (Str.maketrans (py "'") [8217]) (lower key) :=
               {| candidates :=
                    Str.translate (Str.maketrans (py "'") [8217])
                    <$> candidates r;
                  fix_ := fix_ r;
                  reason :=
                    Str.translate (Str.maketrans (py "'") [8217]) (reason r) |}]>
              (<[lower key := r]> t)).
Proof.
  intros Hs Hkey Hk Halt.
  destruct (load_line_pair ignore_words line key data t Hs)
    as (rk & ra & Hrk & Hra & _ & _ & ->).
  exists rk. split; [done|]. simpl.
  rewrite (record_of_translate _ _ Hrk) in Hra. simplify_eq.
  apply (contains_char 39) in Hkey. change (py "'") with [39] in *.
  by rewrite Hkey, Hk, Halt.
Qed.

(** ** What a load leaves alone *)

Lemma for_invariant_in {A S} (P : S → Prop) (xs : list A)
    (body : A → S → result S) (s : S) :
  (∀ x s, x ∈ xs → P s → P (state_of (body x s))) →
  P s → P (state_of (for_ xs body s)).
Proof.
  revert s. induction xs as [|x xs IH]; intros s Hbody Hs; simpl; [done|].
  assert (P (state_of (body x s))) as Hx by (apply Hbody; [by left|done]).
  destruct (body x s); simpl in *; [|done].
  apply IH; [|done]. intros y s' Hy. apply Hbody. by right.
Qed.

Lemma load_line_other_key (ignore_words : str → bool) (line k : str)
    (t : gmap str Misspelling) :
  (∀ key data,
     Str.split (py "->") line = [key; data] →
     k ≠ lower key
     ∧ k ≠ Str.translate (Str.maketrans (py "'") [8217]) (lower key)) →
  state_of (load_line ignore_words line t) !! k = t !! k.
Proof.
  intros Hk.
  destruct (load_line_cases ignore_words line t) as [[Hn _]|[_ ->]]; [|done].
  apply split_arrow_pair in Hn as (key & data & Hs).
  destruct (Hk key data Hs) as [Hkey Halt].
  destruct (load_line_pair ignore_words line key data t Hs)
    as (rk & ra & _ & _ & _ & _ & ->). simpl.
  assert (∀ k' r (t' : gmap str Misspelling), k ≠ k' →
    (if ignore_words k' then t' else <[k' := r]> t') !! k = t' !! k) as Hw.
  { intros k' r t' Hne. destruct (ignore_words k'); [done|].
    by rewrite lookup_insert_ne. }
  destruct (Str.contains _ _); by rewrite ?Hw.
Qed.

Lemma load_line_keeps (ignore_words : str → bool) (line k : str)
    (t : gmap str Misspelling) :
  is_Some (t !! k) → is_Some (state_of (load_line ignore_words line t) !! k).
Proof.
  intros Hk.
  destruct (load_line_cases ignore_words line t) as [[Hn _]|[_ ->]]; [|done].
  apply split_arrow_pair in Hn as (key & data & Hs).
  destruct (load_line_pair ignore_words line key data t Hs)
    as (rk & ra & _ & _ & _ & _ & ->). simpl.
  assert (∀ k' r (t' : gmap str Misspelling), is_Some (t' !! k) →
    is_Some ((if ignore_words k' then t' else <[k' := r]> t') !! k)) as Hw.
  { intros k' r t' Ht'. destruct (ignore_words k'); [done|].
    rewrite lookup_insert_is_Some. destruct (decide (k' = k)); auto. }
  destruct (Str.contains _ _); auto.
Qed.

(** A property of the table that every line keeps is kept by every load
    call, whether it returns or raises. *)
Lemma load_dictionary_from_file_preserves (Q : gmap str Misspelling → Prop)
    (self : Spellchecker) (filename : str) (ignore_words : str → bool) :
  (∀ line t, Q t → Q (state_of (load_line ignore_words line t))) →
  Q (_misspellings self) →
  Q (_misspellings
       (state_of (load_dictionary_from_file self filename ignore_words))).
Proof.
  intros Hline Hself. unfold load_dictionary_from_file.
  destruct (fs filename) as [f|]; [|done].
  rewrite state_of_lift. simpl. by apply (for_invariant Q).
Qed.

Lemma load_builtin_dictionaries_preserves (Q : gmap str Misspelling → Prop)
    (self : Spellchecker) (names : list str) (ignore_words : str → bool) :
  (∀ line t, Q t → Q (state_of (load_line ignore_words line t))) →
  Q (_misspellings self) →
  Q (_misspellings
       (state_of (load_builtin_dictionaries self names ignore_words))).
Proof.
  intros Hline Hself. unfold load_builtin_dictionaries.
  destruct (_builtin_loaded self); [done|].
  assert (Q (_misspellings (state_of
    (for_ (load_order names)
       (λ name self, _load_builtin_dictionary self name ignore_words)
       self)))) as Hloop.
  { apply (for_invariant (λ s, Q (_misspellings s))); [|done].
    intros name s Hs. unfold _load_builtin_dictionary.
    destruct (List.find _ _builtin_dictionaries); [|done].
    by apply load_dictionary_from_file_preserves. }
  by destruct (for_ _ _ self).
Qed.

(** X4.  A load of a file changes the table only at the lowercase keys of
    its lines and at their alternates: the entry at any other key is the
    same after the call, whether the call returns or raises. *)
Theorem load_touches_only_its_keys (self : Spellchecker) (filename : str)
    (ignore_words : str → bool) (k : str) :
  (∀ f line key data,
     fs filename = Some f → line ∈ f →
     Str.split (py "->") line = [key; data] →
     k ≠ lower key
     ∧ k ≠ Str.translate (Str.maketrans (py "'") [8217]) (lower key)) →
  check_lower_cased_word
    (state_of (load_dictionary_from_file self filename ignore_words)) k
  = check_lower_cased_word self k.
Proof.
  intros Hk. unfold check_lower_cased_word, load_dictionary_from_file.
  destruct (fs filename) as [f|] eqn:Hf; [|done].
  rewrite state_of_lift. simpl.
  apply (for_invariant_in
           (λ t : gmap str Misspelling, t !! k = _misspellings self !! k));
    [|done].
  intros line t Hline <-. apply load_line_other_key.
  intros key data. by apply (Hk f).
Qed.

(** X5.  No load call removes an entry: a word that has a record keeps
    one through any sequence of load calls, calls that raise included. *)
Theorem loads_never_delete (self : Spellchecker) (cs : list load_call)
    (k : str) :
  is_Some (check_lower_cased_word self k) →
  is_Some (check_lower_cased_word (run_calls self cs) k).
Proof.
  unfold check_lower_cased_word, run_calls. revert self.
  induction cs as [|c cs IH]; intros self Hk; simpl; [done|].
  apply IH. destruct c as [filename ignore_words|names ignore_words]; simpl.
  - apply (load_dictionary_from_file_preserves (λ t, is_Some (t !! k)));
      [|done].
    intros line t. apply load_line_keeps.
  - apply (load_builtin_dictionaries_preserves (λ t, is_Some (t !! k)));
      [|done].
    intros line t. apply load_line_keeps.
Qed.

(** X6.  A bulk load writes nothing at a key of its [ignore_words],
    whichever sources it reads and whether it returns or raises. *)
Theorem bulk_load_excluded_key_untouched (self : Spellchecker)
    (names : list str) (ignore_words : str → bool) (k : str) :
  ignore_words k = true →
  check_lower_cased_word
    (state_of (load_builtin_dictionaries self names ignore_words)) k
  = check_lower_cased_word self k.
Proof.
  intros Hk. unfold check_lower_cased_word.
  apply (load_builtin_dictionaries_preserves
           (λ t, t !! k = _misspellings self !! k)); [|done].
  intros line t <-. by apply load_line_excluded.
Qed.

(** ** Loads of files *)

(** X7.  A load of a file works the same on a sealed and on an unsealed
    engine and never moves the seal: it leaves [_builtin_loaded] and
    [ignore_words_cased] as they were, whether it returns or raises, and
    its outcome on an engine with the seal set to [b] is its outcome on the
    engine, with the seal set to [b]. *)
Theorem manual_load_keeps_seal (self : Spellchecker) (filename : str)
    (ignore_words : str → bool) (b : bool) :
  _builtin_loaded
    (state_of (load_dictionary_from_file self filename ignore_words))
  = _builtin_loaded self
  ∧ ignore_words_cased
      (state_of (load_dictionary_from_file self filename ignore_words))
    = ignore_words_cased self
  ∧ load_dictionary_from_file (set_builtin_loaded self b) filename ignore_words
    = lift (λ s, set_builtin_loaded s b)
        (load_dictionary_from_file self filename ignore_words).
Proof.
  unfold load_dictionary_from_file.
  destruct (fs filename) as [f|]; [|done]. simpl.
  by destruct (for_ f (load_line ignore_words) (_misspellings self)).
Qed.



(** X9.  Loading two files one after the other is loading the file that
    holds the lines of the first followed by the lines of the second, in
    outcome and in state, also when a line is malformed. *)
Theorem load_concatenation (self : Spellchecker)
    (file1 file2 file12 : str) (f1 f2 : list str)
    (ignore_words : str → bool) :
  fs file1 = Some f1 → fs file2 = Some f2 → fs file12 = Some (f1 ++ f2) →
  bind (load_dictionary_from_file self file1 ignore_words)
    (λ self, load_dictionary_from_file self file2 ignore_words)
  = load_dictionary_from_file self file12 ignore_words.
Proof.
  intros H1 H2 H12. unfold load_dictionary_from_file.
  rewrite H1, H12, for_app.
  destruct (for_ f1 (load_line ignore_words) (_misspellings self)); simpl;
    [|done].
  rewrite H2. simpl.
  by destruct (for_ f2 (load_line ignore_words) s).
Qed.

(** ** Bulk loads and the constructor *)

(** X10.  A bulk load that raises never seals the engine.  Either the
    engine was sealed before the call, the exception is
    [BuiltinDictionariesAlreadyLoadedError] and nothing has changed; or the
    engine was unsealed and still is, and the exception is ValueError, an
    OSError, or [UnknownBuiltinDictionaryError] for a requested name. *)
Theorem failed_bulk_load_never_seals (self s' : Spellchecker)
    (names : list str) (ignore_words : str → bool) (e : exn) :
  load_builtin_dictionaries self names ignore_words = Raise e s' →
  (e = BuiltinDictionariesAlreadyLoadedError
   ∧ s' = self ∧ _builtin_loaded self = true)
  ∨ (_builtin_loaded self = false ∧ _builtin_loaded s' = false
     ∧ (e = ValueError ∨ e = OSError
        ∨ ∃ n, n ∈ names ∧ e = UnknownBuiltinDictionaryError n)).
Proof.
  intros Hr. destruct (_builtin_loaded self) eqn:Hl.
  - rewrite load_builtin_dictionaries_sealed in Hr by done.
    left. by simplify_eq.
  - right. rewrite load_builtin_dictionaries_unsealed in Hr by done.
    destruct (load_builtins_loop_frame self (load_order names) ignore_words)
      as [Hl' _]. simpl in Hl'.
    destruct (for_ (load_order names) _ self) as [s|e1 s] eqn:Hfor;
      simpl in Hr; [done|]. simplify_eq. simpl in Hl'.
    split_and!; [done|congruence|].
    apply for_raise_inv in Hfor as (pre & x & post & s1 & Hord & _ & Hx).
    revert Hx. unfold _load_builtin_dictionary.
    destruct (List.find _ _builtin_dictionaries) as [builtin|].
    + intros Hx.
      destruct (load_dictionary_from_file_frame s1
        (Str.path_join _data_root
           (py "dictionary" ++ b_suffix builtin ++ py ".txt")) ignore_words)
        as (_ & _ & He).
      destruct (He e s' Hx) as [->| ->]; auto.
    + intros [= <- <-]. right. right. exists x. split; [|done].
      apply load_order_elem. rewrite Hord, elem_of_app, elem_of_cons. auto.
Qed.

Lemma for_ok_iff {A S} (P : A → Prop) (xs : list A)
    (body : A → S → result S) (s : S) :
  (∀ x s, (P x ∧ ∃ s', body x s = Ok s')
          ∨ (¬ P x ∧ ∃ e s', body x s = Raise e s')) →
  (∃ s', for_ xs body s = Ok s') ↔ Forall P xs.
Proof.
  intros Hbody. revert s. induction xs as [|x xs IH]; intros s; simpl.
  - split; [by constructor|eauto].
  - rewrite Forall_cons, <-(IH (state_of (body x s))).
    destruct (Hbody x s) as [[HP [s1 ->]]|[HP (e & s1 & ->)]]; simpl.
    + split; [by auto|by intros [_ ?]].
    + split; [by intros [? ?]|by intros [? _]].
Qed.

(** X11.  On an unsealed engine a bulk load returns exactly when every
    requested name has an entry in [_builtin_dictionaries] whose file opens
    and holds the arrow once in each of its lines; the engine is then
    sealed. *)
Theorem bulk_load_succeeds_iff (self : Spellchecker) (names : list str)
    (ignore_words : str → bool) :
  _builtin_loaded self = false →
  (∃ s', load_builtin_dictionaries self names ignore_words = Ok s'
         ∧ _builtin_loaded s' = true)
  ↔ ∀ n, n ∈ names →
      ∃ builtin f,
        List.find (λ builtin, bool_decide (b_name builtin = n))
          _builtin_dictionaries = Some builtin
        ∧ fs (Str.path_join _data_root
                (py "dictionary" ++ b_suffix builtin ++ py ".txt"))
          = Some f
        ∧ Forall (λ line, Str.count (py "->") line = 1%nat) f.
Proof.
  intros Hl. rewrite load_builtin_dictionaries_unsealed by done.
  transitivity (∃ s', for_ (load_order names)
    (λ name self, _load_builtin_dictionary self name ignore_words) self
    = Ok s').
  { split.
    - intros (s' & Hs' & _). destruct (for_ _ _ self); simpl in *; [eauto|done].
    - intros [s' ->]. simpl. eauto. }
  rewrite (for_ok_iff (λ n, ∃ builtin f,
    List.find (λ builtin, bool_decide (b_name builtin = n))
      _builtin_dictionaries = Some builtin
    ∧ fs (Str.path_join _data_root
            (py "dictionary" ++ b_suffix builtin ++ py ".txt")) = Some f
    ∧ Forall (λ line, Str.count (py "->") line = 1%nat) f)).
  - rewrite Forall_forall. by setoid_rewrite load_order_elem.
  - intros n s. unfold _load_builtin_dictionary, load_dictionary_from_file.
    destruct (List.find _ _builtin_dictionaries) as [builtin|];
      [|right; split; [by intros (? & ? & ? & _)|eauto]].
    destruct (fs (Str.path_join _data_root
                (py "dictionary" ++ b_suffix builtin ++ py ".txt")))
      as [f|] eqn:Hfs.
    2: { right. split; [|eauto].
         intros (b0 & f0 & Hb0 & Hf0 & _).
         injection Hb0 as <-. congruence. }
    pose proof (for_ok_iff (λ line, Str.count (py "->") line = 1%nat) f
      (load_line ignore_words) (_misspellings s)) as Hlines.
    destruct (for_ f (load_line ignore_words) (_misspellings s))
      as [t|e t] eqn:Hfor; cbn [lift].
    + left. split; [|eauto]. exists builtin, f. split_and!; try done.
      apply Hlines; [|eauto]. intros line t0.
      destruct (load_line_cases ignore_words line t0) as [?|[? ?]]; eauto.
    + right. split; [|eauto].
      intros (b0 & f0 & Hb0 & Hf0 & Hall).
      injection Hb0 as <-. assert (f0 = f) as -> by congruence.
      apply Hlines in Hall as [? ?]; [done|]. intros line t0.
      destruct (load_line_cases ignore_words line t0) as [?|[? ?]]; eauto.
Qed.

(** X12.  An empty request is not the same to the constructor and to the
    bulk load: the constructor takes an empty sequence as no request and
    leaves the engine unsealed with an empty table, while a bulk load of no
    name on an unsealed engine returns and seals it, its table unchanged,
    so that the next bulk load raises. *)
Theorem empty_request (self : Spellchecker)
    (names : list str) (ignore_words ignore_words' : str → bool) :
  __init__ (Some []) = __init__ None
  ∧ _builtin_loaded (state_of (__init__ None)) = false
  ∧ _misspellings (state_of (__init__ None)) = ∅
  ∧ (_builtin_loaded self = false →
     load_builtin_dictionaries self [] ignore_words
     = Ok (set_builtin_loaded self true)
     ∧ load_builtin_dictionaries (set_builtin_loaded self true) names
         ignore_words'
       = Raise BuiltinDictionariesAlreadyLoadedError
           (set_builtin_loaded self true)).
Proof.
  split_and!; try done. intros Hl. split.
  - by rewrite load_builtin_dictionaries_unsealed.
  - by apply load_builtin_dictionaries_sealed.
Qed.

(** X13.  An engine that the constructor returns is sealed exactly when
    the constructor was given a non-empty sequence of names; on such an
    engine every call of [load_builtin_dictionaries] raises
    [BuiltinDictionariesAlreadyLoadedError] and changes nothing. *)
Theorem constructor_seal (builtin_dictionaries : option (list str))
    (self : Spellchecker) :
  __init__ builtin_dictionaries = Ok self →
  (_builtin_loaded self = true
   ↔ ∃ name names, builtin_dictionaries = Some (name :: names))
  ∧ (_builtin_loaded self = true →
     ∀ names ignore_words,
       load_builtin_dictionaries self names ignore_words
       = Raise BuiltinDictionariesAlreadyLoadedError self).
Proof.
  intros Hinit. split.
  - unfold __init__ in Hinit.
    destruct builtin_dictionaries as [[|name names]|].
    + simplify_eq. simpl. split; [done|]. by intros (? & ? & ?).
    + apply load_builtin_dictionaries_seals in Hinit. split; eauto.
    + simplify_eq. simpl. split; [done|]. by intros (? & ? & ?).
  - intros Hl names ignore_words. by apply load_builtin_dictionaries_sealed.
Qed.

Lemma no_one_character_builtin (n : str) :
  length n = 1%nat →
  List.find (λ builtin, bool_decide (b_name builtin = n))
    _builtin_dictionaries = None.
Proof.
  intros Hn.
  destruct (List.find _ _builtin_dictionaries) as [builtin|] eqn:Hfind;
    [|done].
  apply find_some in Hfind as [Hin Hname].
  apply bool_decide_eq_true in Hname. subst n.
  repeat (destruct Hin as [<-|Hin]; [discriminate Hn|]). destruct Hin.
Qed.

(** X14.  A [str] given for the names is read as the sequence of its
    characters, as in [load_builtin_dictionaries("clear")] of the
    docstring: on an unsealed engine a non-empty request of one-character
    names raises [UnknownBuiltinDictionaryError] for the smallest of them
    and leaves the engine as it was. *)
Theorem str_as_names_unknown (self : Spellchecker) (names : list str)
    (ignore_words : str → bool) :
  names ≠ [] →
  Forall (λ n, length n = 1%nat) names →
  _builtin_loaded self = false →
  ∃ n, n ∈ names
    ∧ (∀ n', n' ∈ names → Str.le n n')
    ∧ load_builtin_dictionaries self names ignore_words
      = Raise (UnknownBuiltinDictionaryError n) self.
Proof.
  intros Hne Hone Hl.
  pose proof (load_order_sorted names) as Hsorted.
  pose proof (load_order_elem names) as Helem.
  rewrite load_builtin_dictionaries_unsealed by done.
  revert Hsorted Helem.
  destruct (load_order names) as [|n rest]; intros Hsorted Helem.
  { destruct names as [|n names]; [done|].
    assert (n ∈ @nil str) as Hn by (apply Helem; by left).
    by apply elem_of_nil in Hn. }
  apply StronglySorted_cons in Hsorted as [Hlt _].
  exists n. split_and!.
  - apply Helem. by left.
  - intros n' [->|Hn']%Helem%elem_of_cons; [apply leb_refl|].
    rewrite Forall_forall in Hlt. by apply lt_le_ne, Hlt.
  - simpl. unfold _load_builtin_dictionary.
    rewrite no_one_character_builtin; [done|].
    rewrite Forall_forall in Hone. apply Hone, Helem. by left.
Qed.

(** ** Scans *)

Lemma generate_raised {T A} (body : T → turn A) (ts : list T) (e : exn) :
  raised (generate body ts) = Some e → ∃ t, t ∈ ts ∧ body t = Throw e.
Proof.
  induction ts as [|t ts IH]; simpl; [done|].
  destruct (body t) as [|a|e'] eqn:Ht; simpl.
  - intros (t' & ? & ?)%IH. exists t'. split; [by right|done].
  - intros (t' & ? & ?)%IH. exists t'. split; [by right|done].
  - intros [= ->]. exists t. split; [by left|done].
Qed.

Lemma generate_no_raise {T A} (body : T → turn A) (ts : list T) :
  Forall (λ t, ∀ e, body t ≠ Throw e) ts → raised (generate body ts) = None.
Proof.
  intros Hts. destruct (raised (generate body ts)) as [e|] eqn:Hr; [|done].
  apply generate_raised in Hr as (t & Ht & He).
  rewrite Forall_forall in Hts. by destruct (Hts t Ht e).
Qed.

Lemma generate_sublist {T A} (body : T → turn A) (proj : A → T)
    (ts : list T) :
  (∀ t a, body t = Yield a → proj a = t) →
  proj <$> yielded (generate body ts) `sublist_of` ts.
Proof.
  intros Hproj. induction ts as [|t ts IH]; simpl; [done|].
  destruct (body t) as [|a|e] eqn:Ht; simpl.
  - by apply sublist_cons.
  - rewrite (Hproj t a Ht). by apply sublist_skip.
  - apply sublist_nil_l.
Qed.

Lemma startswith_escape_iff (w : str) :
  Str.startswith_any escape_letters w = true
  ↔ ∃ c rest, w = c :: rest ∧ c ∈ [97; 98; 102; 110; 114; 116; 118].
Proof.
  destruct w as [|c rest].
  - split; [done|]. by intros (? & ? & ? & _).
  - rewrite startswith_escape. split; [eauto|].
    by intros (? & ? & [= <- <-] & ?).
Qed.

(** The token that [spellcheck_token] reports, and when. *)
Lemma spellcheck_token_yield_iff (self : Spellchecker) (line : str)
    (extra_words_to_ignore : str → bool) (t : Token)
    (d : DetectedMisspelling) :
  (start t ≤ Z.of_nat (length line))%Z ∨
  spellcheck_token self line extra_words_to_ignore t = Yield d →
  spellcheck_token self line extra_words_to_ignore t = Yield d
  ↔ token d = t ∧ word d = group t ∧ lword d = lower (group t)
    ∧ _misspellings self !! lower (group t) = Some (misspelling d)
    ∧ ignore_words_cased self (group t) = false
    ∧ extra_words_to_ignore (lower (group t)) = false
    ∧ ¬ ((1 ≤ start t)%Z
         ∧ line !! Z.to_nat (start t - 1) = Some 92
         ∧ Str.startswith_any escape_letters (group t) = true
         ∧ _misspellings self !! drop 1 (lower (group t)) = None).
Proof.
  intros Hrange. revert Hrange. unfold spellcheck_token.
  destruct (ignore_words_cased self (group t));
    [intros _; split; [done|by intros (_ & _ & _ & _ & ? & _)]|].
  destruct (_misspellings self !! lower (group t)) as [m|];
    [|intros _; split; [done|by intros (_ & _ & _ & ? & _)]].
  destruct (extra_words_to_ignore (lower (group t))); cbn [negb];
    [intros _; split; [done|by intros (_ & _ & _ & _ & _ & ? & _)]|].
  destruct (Z.leb_spec 0 (start t - 1)) as [Hpos|Hneg].
  - destruct (line !! Z.to_nat (start t - 1)) as [c|] eqn:Hc.
    + intros _.
      destruct ((c =? 92) && Str.startswith_any escape_letters (group t)
                && bool_decide (_misspellings self !! drop 1 (lower (group t))
                                = None)) eqn:Hb.
      * split; [done|]. intros (_ & _ & _ & _ & _ & _ & Hnot).
        apply andb_true_iff in Hb as [[Hc92 Hsw]%andb_true_iff Htail].
        apply N.eqb_eq in Hc92 as ->. apply bool_decide_eq_true in Htail.
        destruct Hnot. split_and!; try done. lia.
      * split.
        -- intros [= <-]. split_and!; try done.
           intros (_ & [= ->] & Hsw & Htail).
           by rewrite Hsw, Htail, bool_decide_true in Hb.
        -- intros (<- & ? & ? & [= ?] & _). destruct d; simpl in *; by subst.
    + intros [Hrange|?]; [|done].
      apply lookup_ge_None in Hc. lia.
  - intros _. split.
    + intros [= <-]. split_and!; try done. intros (? & _). lia.
    + intros (<- & ? & ? & [= ?] & _). destruct d; simpl in *; by subst.
Qed.

(** X15.  Every issue that a scan yields is well founded, whatever the
    tokenizer: it carries a token of the line with the text of that token
    as [word] and its lowercase form as [lword]; its record is the one
    [check_lower_cased_word] returns for [lword]; and the token is in
    neither ignore set, [ignore_words_cased] by its text as written and
    [extra_words_to_ignore] by its lowercase form. *)
Theorem scan_sound (self : Spellchecker) (line : str)
    (tokenizer : str → list Token) (extra_words_to_ignore : str → bool)
    (d : DetectedMisspelling) :
  d ∈ yielded (spellcheck_line self line tokenizer extra_words_to_ignore) →
  token d ∈ tokenizer line
  ∧ word d = group (token d)
  ∧ lword d = lower (word d)
  ∧ check_lower_cased_word self (lword d) = Some (misspelling d)
  ∧ ignore_words_cased self (word d) = false
  ∧ extra_words_to_ignore (lword d) = false.
Proof.
  intros (t & Ht & Hd)%generate_yielded.
  apply spellcheck_token_yield_iff in Hd as Hd'; [|by right].
  destruct Hd' as (<- & Hw & Hl & Hm & Hc & He & _).
  unfold check_lower_cased_word. by rewrite Hl, Hw.
Qed.

(** X16.  The issues of a scan come in the order of the tokens, at most
    one for each token: their tokens are a subsequence of the tokens of
    the line. *)
Theorem scan_order (self : Spellchecker) (line : str)
    (tokenizer : str → list Token) (extra_words_to_ignore : str → bool) :
  token <$> yielded (spellcheck_line self line tokenizer extra_words_to_ignore)
  `sublist_of` tokenizer line.
Proof.
  apply generate_sublist. intros t d Hd.
  by apply spellcheck_token_yield in Hd as [? _].
Qed.

(** X17.  With a tokenizer whose offsets lie within the line, a scan never
    raises, and it yields exactly the issues of the tokens whose lowercase
    form is a key, that neither ignore set holds, and that the escape test
    does not drop; the escape test drops a token when it stands after a
    backslash, starts with one of a, b, f, n, r, t, v, and its lowercase
    form without the first character is not a key. *)
Theorem scan_characterization (self : Spellchecker) (line : str)
    (tokenizer : str → list Token) (extra_words_to_ignore : str → bool) :
  Forall (λ t, (start t ≤ Z.of_nat (length line))%Z) (tokenizer line) →
  raised (spellcheck_line self line tokenizer extra_words_to_ignore) = None
  ∧ ∀ d,
      d ∈ yielded (spellcheck_line self line tokenizer extra_words_to_ignore)
      ↔ token d ∈ tokenizer line
        ∧ word d = group (token d)
        ∧ lword d = lower (word d)
        ∧ _misspellings self !! lword d = Some (misspelling d)
        ∧ ignore_words_cased self (word d) = false
        ∧ extra_words_to_ignore (lword d) = false
        ∧ ¬ ((1 ≤ start (token d))%Z
             ∧ line !! Z.to_nat (start (token d) - 1) = Some 92
             ∧ (∃ c rest, word d = c :: rest
                  ∧ c ∈ [97; 98; 102; 110; 114; 116; 118])
             ∧ _misspellings self !! drop 1 (lword d) = None).
Proof.
  intros Hin.
  assert (Forall (λ t, ∀ e,
    spellcheck_token self line extra_words_to_ignore t ≠ Throw e)
    (tokenizer line)) as Hsafe.
  { eapply Forall_impl; [exact Hin|]. intros t Ht e.
    by apply spellcheck_token_no_throw. }
  split; [by apply generate_no_raise|].
  intros d. rewrite Forall_forall in Hin. split.
  - intros (t & Ht & Hd)%generate_yielded.
    apply spellcheck_token_yield_iff in Hd; [|by right].
    destruct Hd as (<- & Hw & Hl & Hm & Hc & He & Hnot).
    rewrite Hl, Hw. split_and!; try done.
    by rewrite <-startswith_escape_iff.
  - intros (Ht & Hw & Hl & Hm & Hc & He & Hnot).
    unfold spellcheck_line. eapply generate_complete; [done|exact Ht|].
    apply spellcheck_token_yield_iff; [left; by apply Hin|].
    rewrite Hw in Hl, Hc. rewrite Hl in Hm, He. rewrite Hl, Hw in Hnot.
    split_and!; try done.
    by rewrite startswith_escape_iff.
Qed.

Lemma spellcheck_token_throw (self : Spellchecker) (line : str)
    (extra_words_to_ignore : str → bool) (t : Token) (e : exn) :
  spellcheck_token self line extra_words_to_ignore t = Throw e →
  e = IndexError
  ∧ (Z.of_nat (length line) < start t)%Z
  ∧ is_Some (_misspellings self !! lower (group t))
  ∧ ignore_words_cased self (group t) = false
  ∧ extra_words_to_ignore (lower (group t)) = false.
Proof.
  destruct (decide (start t ≤ Z.of_nat (length line))%Z) as [Hle|Hgt].
  { intros He. by apply spellcheck_token_no_throw in He. }
  unfold spellcheck_token.
  destruct (ignore_words_cased self (group t)); [done|].
  destruct (_misspellings self !! lower (group t)) as [m|]; [|done].
  destruct (extra_words_to_ignore (lower (group t))); cbn [negb]; [done|].
  destruct (0 <=? start t - 1)%Z; [|done].
  destruct (line !! Z.to_nat (start t - 1)) as [c|].
  - by destruct (_ && _).
  - intros [= <-]. split_and!; try done. lia.
Qed.

(** X18.  A scan raises nothing but IndexError, and raises it only at a
    token whose offset lies beyond the end of the line, whose lowercase
    form is a key and that neither ignore set holds: the character before
    the token is then read outside the line. *)
Theorem scan_index_error (self : Spellchecker) (line : str)
    (tokenizer : str → list Token) (extra_words_to_ignore : str → bool)
    (e : exn) :
  raised (spellcheck_line self line tokenizer extra_words_to_ignore) = Some e →
  e = IndexError
  ∧ ∃ t, t ∈ tokenizer line
      ∧ (Z.of_nat (length line) < start t)%Z
      ∧ is_Some (check_lower_cased_word self (lower (group t)))
      ∧ ignore_words_cased self (group t) = false
      ∧ extra_words_to_ignore (lower (group t)) = false.
Proof.
  intros (t & Ht & He)%generate_raised.
  apply spellcheck_token_throw in He as (-> & ? & ? & ? & ?).
  split; [done|]. by exists t.
Qed.

(** X19.  A scan of a line none of whose tokens has a record yields
    nothing and raises nothing, whatever the offsets of the tokens; so does
    every scan by an engine whose table is empty. *)
Theorem scan_unknown_words_safe (self : Spellchecker) (line : str)
    (tokenizer : str → list Token) (extra_words_to_ignore : str → bool) :
  (∀ t, t ∈ tokenizer line →
        check_lower_cased_word self (lower (group t)) = None) →
  spellcheck_line self line tokenizer extra_words_to_ignore
  = {| yielded := []; raised := None |}.
Proof.
  unfold spellcheck_line, check_lower_cased_word.
  induction (tokenizer line) as [|t ts IH]; intros Hnone; [done|].
  simpl. unfold spellcheck_token at 1.
  rewrite (Hnone t) by by left.
  destruct (ignore_words_cased self (group t));
    apply IH; intros t' Ht'; apply Hnone; by right.
Qed.

(** X20.  The escape test needs a character before the token: a token at
    offset 0, or at a negative offset, whose lowercase form is a key and
    that neither ignore set holds is reported, whatever its first letter
    and its tail, when the offsets of the tokenizer lie within the line. *)
Theorem token_at_line_start_reported (self : Spellchecker) (line : str)
    (tokenizer : str → list Token) (extra_words_to_ignore : str → bool)
    (tok : Token) (m : Misspelling) :
  tok ∈ tokenizer line →
  (start tok ≤ 0)%Z →
  _misspellings self !! lower (group tok) = Some m →
  ignore_words_cased self (group tok) = false →
  extra_words_to_ignore (lower (group tok)) = false →
  Forall (λ t, (start t ≤ Z.of_nat (length line))%Z) (tokenizer line) →
  {| word := group tok; lword := lower (group tok);
     misspelling := m; token := tok |}
  ∈ yielded (spellcheck_line self line tokenizer extra_words_to_ignore).
Proof.
  intros Htok Hstart Hm Hcased Hextra Hin.
  unfold spellcheck_line. eapply generate_complete; [|exact Htok|].
  - eapply Forall_impl; [exact Hin|]. intros t Ht e.
    by apply spellcheck_token_no_throw.
  - apply spellcheck_token_yield_iff; [left; lia|].
    simpl. split_and!; try done. intros (? & _). lia.
Qed.

(** ** Lookups after a load *)

Lemma for_ok_split {A S} (pre post : list A) (x : A)
    (body : A → S → result S) (s s' : S) :
  for_ (pre ++ x :: post) body s = Ok s' →
  ∃ s1 s2, for_ pre body s = Ok s1 ∧ body x s1 = Ok s2
    ∧ for_ post body s2 = Ok s'.
Proof.
  rewrite for_app. destruct (for_ pre body s) as [s1|]; simpl; [|done].
  destruct (body x s1) as [s2|] eqn:Hx; simpl; [|done]. eauto.
Qed.

(** X21.  After a load of a file that returns, every word of the file can
    be looked up: for each line, the lowercase key has a record unless it
    is excluded, whatever the later lines of the file wrote. *)
Theorem loaded_keys_found (self s' : Spellchecker) (filename : str)
    (ignore_words : str → bool) (f : list str) (line key data : str) :
  load_dictionary_from_file self filename ignore_words = Ok s' →
  fs filename = Some f → line ∈ f →
  Str.split (py "->") line = [key; data] →
  ignore_words (lower key) = false →
  is_Some (check_lower_cased_word s' (lower key)).
Proof.
  unfold load_dictionary_from_file, check_lower_cased_word.
  intros Hload Hf Hin Hs Hk. rewrite Hf in Hload.
  destruct (for_ f (load_line ignore_words) (_misspellings self))
    as [t'|] eqn:Hfor; simpl in Hload; [|done].
  injection Hload as <-. simpl.
  apply list_elem_of_split in Hin as (pre & post & ->).
  apply for_ok_split in Hfor as (t1 & t2 & _ & Hline & Hpost).
  assert (is_Some (t2 !! lower key)) as Ht2.
  { destruct (load_line_pair ignore_words line key data t1 Hs)
      as (rk & ra & _ & _ & _ & _ & Heq).
    rewrite Heq in Hline. injection Hline as <-. rewrite Hk. simpl.
    assert (is_Some (<[lower key := rk]> t1 !! lower key)) as Hbase
      by (rewrite lookup_insert_eq; eauto).
    destruct (Str.contains _ _); [|done].
    destruct (ignore_words _); [done|].
    apply lookup_insert_is_Some.
    destruct (decide
      (Str.translate (Str.maketrans (py "'") [8217]) (lower key)
       = lower key)); auto. }
  pose proof (for_invariant (λ t : gmap str Misspelling,
    is_Some (t !! lower key)) post (load_line ignore_words) t2) as Hkeep.
  rewrite Hpost in Hkeep. apply Hkeep; [|done].
  intros line' t. apply load_line_keeps.
Qed.


End Spellchecker.

(** ** The laws at sample inputs *)

Lemma comma_reason_rule_witness :
  _add_misspelling (py "foo") (py "bar, baz, this is why") ∅
  = Ok {[ py "foo" := {| candidates := [py "bar"; py "baz"];
                         fix_ := false;
                         reason := py "this is why" |} ]}
  ∧ _add_misspelling (py "foo") (py "bar") ∅
    = Ok {[ py "foo" := {| candidates := [py "bar"];
                           fix_ := true;
                           reason := [] |} ]}.
Proof.
  split.
  - apply (proj1 (comma_reason_rule (py "foo") (py "bar, baz, this is why") ∅)
             [py "bar"; py " baz"] (py " this is why")).
    + discriminate.
    + apply (bool_decide_unpack _). vm_compute. exact I.
    + apply (bool_decide_unpack _). vm_compute. exact I.
    + reflexivity.
  - apply (proj2 (proj2 (comma_reason_rule (py "foo") (py "bar") ∅))).
    apply (bool_decide_unpack _). vm_compute. exact I.
Defined.

(** C1, the claim as first stated fails: with [don't] alone excluded, the
    line [don't->do not] still creates the entry of the alternate key
    [don’t], which is not in the exclusion set. *)
Lemma excluded_key_keeps_alternate :
  container [py "don't"] (py "don't") = true
  ∧ container [py "don't"] dont_alternate = false
  ∧ sample_fs (py "contractions.txt") = Some [py "don't->do not" ++ [10]]
  ∧ load_dictionary_from_file lower_ascii sample_fs sample_engine
      (py "contractions.txt") (container [py "don't"])
    = Ok {| _misspellings :=
              {[ dont_alternate := {| candidates := [py "do not"];
                                      fix_ := true;
                                      reason := [] |} ]};
            _builtin_loaded := false;
            ignore_words_cased := λ _, false |}.
Proof. split_and!; vm_compute; reflexivity. Qed.

(** C2, the claim as first stated fails: the only line of the file holds
    the arrow, twice, and the load raises ValueError instead of cutting the
    line at the first arrow. *)
Lemma second_arrow_rejected :
  sample_fs (py "two_arrows.txt") = Some [py "a->b->c" ++ [10]]
  ∧ Str.contains (py "->") (py "a->b->c" ++ [10]) = true
  ∧ Str.split (py "->") (py "a->b->c" ++ [10])
    = [py "a"; py "b"; py "c" ++ [10]]
  ∧ load_dictionary_from_file lower_ascii sample_fs sample_engine
      (py "two_arrows.txt") (λ _, false)
    = Raise ValueError sample_engine.
Proof. split_and!; vm_compute; reflexivity. Qed.

Lemma excluded_key_untouched_witness :
  _misspellings
    (state_of (load_dictionary_from_file lower_ascii sample_fs sample_engine
                 (py "contractions.txt") (container [py "don't"])))
    !! py "don't"
  = _misspellings sample_engine !! py "don't"
  ∧ ∃ t',
      load_line lower_ascii (container [py "don't"])
        (py "don't->do not" ++ [10]) ∅ = Ok t'
      ∧ t' !! dont_alternate
        = Some {| candidates := [py "do not"]; fix_ := true; reason := [] |}
      ∧ is_Some (t' !! dont_alternate).
Proof.
  split.
  - apply (proj1 (excluded_key_untouched lower_ascii sample_fs sample_engine
                    (py "contractions.txt") (container [py "don't"]))).
    vm_compute. reflexivity.
  - apply (proj2 (excluded_key_untouched lower_ascii sample_fs sample_engine
                    (py "contractions.txt") (container [py "don't"]))
             (py "don't->do not" ++ [10]) (py "don't") (py "do not" ++ [10]) ∅).
    + vm_compute. reflexivity.
    + apply (bool_decide_unpack _). vm_compute. exact I.
    + vm_compute. reflexivity.
Defined.

Lemma malformed_record_iff_witness :
  (∃ s', load_dictionary_from_file lower_ascii sample_fs sample_engine
           (py "two_arrows.txt") (λ _, false) = Raise ValueError s')
  ∧ Forall (λ line,
      Str.count (py "->") line = 1%nat →
      ∃ key data,
        line = key ++ py "->" ++ data
        ∧ Str.split (py "->") line = [key; data])
      [py "tpyo->typo" ++ [10]; py "ment->meant" ++ [10]].
Proof.
  split.
  - apply (proj1 (malformed_record_iff lower_ascii sample_fs sample_engine
                    (py "two_arrows.txt") (λ _, false)
                    [py "a->b->c" ++ [10]] eq_refl)).
    apply Exists_cons_hd. vm_compute. discriminate.
  - apply (proj2 (malformed_record_iff lower_ascii sample_fs sample_engine
                    (py "/srv/codespell/data/dictionary.txt") (λ _, false)
                    [py "tpyo->typo" ++ [10]; py "ment->meant" ++ [10]]
                    eq_refl)).
Defined.

Lemma last_write_wins_witness :
  ∃ s1 s2,
    load_dictionary_from_file lower_ascii sample_fs sample_engine
      (py "first.txt") (λ _, false) = Ok s1
    ∧ load_dictionary_from_file lower_ascii sample_fs s1
        (py "second.txt") (λ _, false) = Ok s2
    ∧ _misspellings s2 !! py "teh"
      = Some {| candidates := [py "the"; py "ten"];
                fix_ := false;
                reason := py "ambiguous" |}
    ∧ is_Some (_misspellings s2 !! py "teh").
Proof.
  apply (proj2 (proj2 (last_write_wins lower_ascii sample_fs (py "teh")
                         (py "the" ++ [10])
                         (py "the, ten, ambiguous" ++ [10])))
           sample_engine (λ _, false) (λ _, false)
           (py "first.txt") (py "second.txt")
           (py "Teh->the" ++ [10]) (py "teh->the, ten, ambiguous" ++ [10])
           (py "Teh") (py "teh"));
    vm_compute; reflexivity.
Defined.

Lemma seal_guard_witness :
  load_builtin_dictionaries lower_ascii sample_fs sample_root
    (state_of (load_builtin_dictionaries lower_ascii sample_fs sample_root
                 sample_engine [py "clear"] (λ _, false)))
    [py "rare"] (λ _, false)
  = Raise BuiltinDictionariesAlreadyLoadedError
      {| _misspellings :=
           {[ py "tpyo" := {| candidates := [py "typo"];
                              fix_ := true; reason := [] |};
              py "ment" := {| candidates := [py "meant"];
                              fix_ := true; reason := [] |} ]};
         _builtin_loaded := true;
         ignore_words_cased := λ _, false |}.
Proof.
  apply (seal_guard lower_ascii sample_fs sample_root sample_engine _
           [py "clear"] [py "rare"] (λ _, false) (λ _, false)).
  vm_compute. reflexivity.
Defined.


Lemma stored_records_invariant_witness :
  _misspellings
    (run_calls lower_ascii sample_fs sample_root
       (state_of (__init__ lower_ascii sample_fs sample_root
                    (Some [py "clear"; py "rare"])))
       [LoadDictionaryFromFile (py "first.txt") (λ _, false);
        LoadDictionaryFromFile (py "two_arrows.txt") (λ _, false);
        LoadBuiltinDictionaries [py "clear"] (λ _, false);
        LoadDictionaryFromFile (py "second.txt") (λ _, false)])
    !! py "teh"
  = Some {| candidates := [py "the"; py "ten"];
            fix_ := false;
            reason := py "ambiguous" |}
  ∧ (1 ≤ length [py "the"; py "ten"])%nat
  ∧ (false = true → py "ambiguous" = []).
Proof.
  assert (_misspellings
    (run_calls lower_ascii sample_fs sample_root
       (state_of (__init__ lower_ascii sample_fs sample_root
                    (Some [py "clear"; py "rare"])))
       [LoadDictionaryFromFile (py "first.txt") (λ _, false);
        LoadDictionaryFromFile (py "two_arrows.txt") (λ _, false);
        LoadBuiltinDictionaries [py "clear"] (λ _, false);
        LoadDictionaryFromFile (py "second.txt") (λ _, false)])
    !! py "teh"
  = Some {| candidates := [py "the"; py "ten"];
            fix_ := false;
            reason := py "ambiguous" |}) as Hstored
    by (vm_compute; reflexivity).
  split; [exact Hstored|].
  exact (stored_records_invariant lower_ascii sample_fs sample_root
           _ _ _ _ Hstored).
Defined.

Lemma unknown_builtin_not_atomic_witness :
  py "zzz" ∈ [py "zzz"; py "rare"; py "clear"]
  ∧ List.find (λ builtin, bool_decide (b_name builtin = py "zzz"))
      _builtin_dictionaries = None
  ∧ _builtin_loaded
      {| _misspellings :=
           {[ py "tpyo" := {| candidates := [py "typo"];
                              fix_ := true; reason := [] |};
              py "ment" := {| candidates := [py "meant"; py "mend"];
                              fix_ := false; reason := py "a rare word" |} ]};
         _builtin_loaded := false;
         ignore_words_cased := λ _, false |}
    = false
  ∧ (∀ names' ignore_words' s'',
       load_builtin_dictionaries lower_ascii sample_fs sample_root
         {| _misspellings :=
              {[ py "tpyo" := {| candidates := [py "typo"];
                                 fix_ := true; reason := [] |};
                 py "ment" := {| candidates := [py "meant"; py "mend"];
                                 fix_ := false;
                                 reason := py "a rare word" |} ]};
            _builtin_loaded := false;
            ignore_words_cased := λ _, false |}
         names' ignore_words'
       ≠ Raise BuiltinDictionariesAlreadyLoadedError s'')
  ∧ for_ (filter (λ n, Str.lt n (py "zzz"))
            (load_order [py "zzz"; py "rare"; py "clear"]))
      (λ n self,
         _load_builtin_dictionary lower_ascii sample_fs sample_root
           self n (λ _, false))
      sample_engine
    = Ok {| _misspellings :=
              {[ py "tpyo" := {| candidates := [py "typo"];
                                 fix_ := true; reason := [] |};
                 py "ment" := {| candidates := [py "meant"; py "mend"];
                                 fix_ := false;
                                 reason := py "a rare word" |} ]};
            _builtin_loaded := false;
            ignore_words_cased := λ _, false |}.
Proof.
  apply (unknown_builtin_not_atomic lower_ascii sample_fs sample_root
           sample_engine _ [py "zzz"; py "rare"; py "clear"] (λ _, false)
           (py "zzz")).
  vm_compute. reflexivity.
Defined.

Lemma escape_suppression_witness :
  (∀ d, d ∈ yielded (spellcheck_line lower_ascii
                       (sample_engine_with [py "nabc"])
                       (py "x = '\nabc'") word_tokenizer (λ _, false)) →
        token d ≠ {| group := py "nabc"; start := 6 |})
  ∧ ∃ d, d ∈ yielded (spellcheck_line lower_ascii
                        (sample_engine_with [py "nabc"; py "abc"])
                        (py "x = '\nabc'") word_tokenizer (λ _, false))
      ∧ token d = {| group := py "nabc"; start := 6 |}
      ∧ word d = py "nabc"
      ∧ lword d = py "nabc"
      ∧ _misspellings (sample_engine_with [py "nabc"; py "abc"]) !! py "nabc"
        = Some (misspelling d).
Proof.
  split.
  - apply (proj1 (escape_suppression lower_ascii
                    (sample_engine_with [py "nabc"])
                    (py "x = '\nabc'") word_tokenizer (λ _, false)
                    {| group := py "nabc"; start := 6 |} 110 (py "abc")
                    ltac:(vm_compute; apply list_elem_of_further,
                            list_elem_of_here)
                    ltac:(vm_compute; eexists; reflexivity)
                    ltac:(vm_compute; discriminate)
                    ltac:(vm_compute; reflexivity)
                    ltac:(vm_compute; reflexivity)
                    ltac:(apply (bool_decide_unpack _); vm_compute; exact I))).
    vm_compute. reflexivity.
  - apply (proj2 (escape_suppression lower_ascii
                    (sample_engine_with [py "nabc"; py "abc"])
                    (py "x = '\nabc'") word_tokenizer (λ _, false)
                    {| group := py "nabc"; start := 6 |} 110 (py "abc")
                    ltac:(vm_compute; apply list_elem_of_further,
                            list_elem_of_here)
                    ltac:(vm_compute; eexists; reflexivity)
                    ltac:(vm_compute; discriminate)
                    ltac:(vm_compute; reflexivity)
                    ltac:(vm_compute; reflexivity)
                    ltac:(apply (bool_decide_unpack _); vm_compute; exact I))).
    + vm_compute. eexists. reflexivity.
    + vm_compute. reflexivity.
    + vm_compute. reflexivity.
    + vm_compute. repeat constructor; discriminate.
Defined.

Lemma uppercase_not_suppressed_witness :
  {| word := py "Nabc"; lword := py "nabc";
     misspelling := {| candidates := [py "abc"]; fix_ := true; reason := [] |};
     token := {| group := py "Nabc"; start := 6 |} |}
  ∈ yielded (spellcheck_line lower_ascii (sample_engine_with [py "nabc"])
               (py "x = '\Nabc'") word_tokenizer (λ _, false)).
Proof.
  apply (uppercase_not_suppressed lower_ascii (sample_engine_with [py "nabc"])
           (py "x = '\Nabc'") word_tokenizer (λ _, false)
           {| group := py "Nabc"; start := 6 |} 78 (py "abc")).
  - vm_compute. apply list_elem_of_further, list_elem_of_here.
  - vm_compute. reflexivity.
  - apply (bool_decide_unpack _). vm_compute. exact I.
  - vm_compute. reflexivity.
  - vm_compute. reflexivity.
  - vm_compute. reflexivity.
  - vm_compute. repeat constructor; discriminate.
Defined.

(** ** The further properties at sample inputs *)

Lemma alternate_expansion_witness :
  ∃ r,
    record_of (lower_ascii (py "Don't, dont, a contraction" ++ [10])) = Some r
    ∧ load_line lower_ascii (λ _, false)
        (py "ca'nt->Don't, dont, a contraction" ++ [10]) ∅
      = Ok (<[Str.translate (Str.maketrans (py "'") [8217])
                (lower_ascii (py "ca'nt")) :=
               {| candidates :=
                    Str.translate (Str.maketrans (py "'") [8217])
                    <$> candidates r;
                  fix_ := fix_ r;
                  reason :=
                    Str.translate (Str.maketrans (py "'") [8217]) (reason r) |}]>
              (<[lower_ascii (py "ca'nt") := r]> ∅)).
Proof.
  apply (alternate_expansion lower_ascii (λ _, false)
           (py "ca'nt->Don't, dont, a contraction" ++ [10])
           (py "ca'nt") (py "Don't, dont, a contraction" ++ [10]) ∅).
  - vm_compute. reflexivity.
  - apply (bool_decide_unpack _). vm_compute. exact I.
  - reflexivity.
  - reflexivity.
Defined.

Lemma load_touches_only_its_keys_witness :
  check_lower_cased_word
    (state_of (load_dictionary_from_file lower_ascii sample_fs
                 (sample_engine_with [py "tpyo"]) (py "first.txt")
                 (λ _, false)))
    (py "tpyo")
  = check_lower_cased_word (sample_engine_with [py "tpyo"]) (py "tpyo").
Proof.
  apply (load_touches_only_its_keys lower_ascii sample_fs
           (sample_engine_with [py "tpyo"]) (py "first.txt") (λ _, false)
           (py "tpyo")).
  intros f line key data Hf Hin Hs.
  vm_compute in Hf. injection Hf as <-.
  apply list_elem_of_singleton in Hin. subst line.
  vm_compute in Hs. injection Hs as <- <-.
  split; vm_compute; discriminate.
Defined.

Lemma loads_never_delete_witness :
  is_Some (check_lower_cased_word (sample_engine_with [py "ment"]) (py "ment"))
  ∧ is_Some
      (check_lower_cased_word
         (run_calls lower_ascii sample_fs sample_root
            (sample_engine_with [py "ment"])
            [LoadDictionaryFromFile (py "two_arrows.txt") (λ _, false);
             LoadBuiltinDictionaries [py "rare"; py "zzz"] (λ _, false);
             LoadDictionaryFromFile (py "second.txt") (λ _, false)])
         (py "ment")).
Proof.
  assert (is_Some (check_lower_cased_word (sample_engine_with [py "ment"])
                     (py "ment"))) as Hment
    by (vm_compute; eexists; reflexivity).
  split; [exact Hment|].
  exact (loads_never_delete lower_ascii sample_fs sample_root _ _ _ Hment).
Defined.

Lemma bulk_load_excluded_key_untouched_witness :
  check_lower_cased_word
    (state_of (load_builtin_dictionaries lower_ascii sample_fs sample_root
                 sample_engine [py "clear"; py "rare"]
                 (container [py "ment"])))
    (py "ment")
  = check_lower_cased_word sample_engine (py "ment").
Proof.
  apply (bulk_load_excluded_key_untouched lower_ascii sample_fs sample_root
           sample_engine [py "clear"; py "rare"] (container [py "ment"])
           (py "ment")).
  vm_compute. reflexivity.
Defined.


Lemma load_concatenation_witness :
  bind (load_dictionary_from_file lower_ascii sample_fs2 sample_engine
          (py "part1.txt") (λ _, false))
    (λ self, load_dictionary_from_file lower_ascii sample_fs2 self
               (py "part2.txt") (λ _, false))
  = load_dictionary_from_file lower_ascii sample_fs2 sample_engine
      (py "whole.txt") (λ _, false).
Proof.
  apply (load_concatenation lower_ascii sample_fs2 sample_engine
           (py "part1.txt") (py "part2.txt") (py "whole.txt")
           [py "tpyo->typo" ++ [10]]
           [py "teh->the, ten, ambiguous" ++ [10]] (λ _, false));
    vm_compute; reflexivity.
Defined.

Lemma failed_bulk_load_never_seals_witness :
  load_builtin_dictionaries lower_ascii sample_fs sample_root
    sample_engine [py "clear"; py "names"] (λ _, false)
  = Raise OSError
      {| _misspellings :=
           {[ py "tpyo" := {| candidates := [py "typo"];
                              fix_ := true; reason := [] |};
              py "ment" := {| candidates := [py "meant"];
                              fix_ := true; reason := [] |} ]};
         _builtin_loaded := false;
         ignore_words_cased := λ _, false |}
  ∧ ((OSError = BuiltinDictionariesAlreadyLoadedError
      ∧ {| _misspellings :=
             {[ py "tpyo" := {| candidates := [py "typo"];
                                fix_ := true; reason := [] |};
                py "ment" := {| candidates := [py "meant"];
                                fix_ := true; reason := [] |} ]};
           _builtin_loaded := false;
           ignore_words_cased := λ _, false |} = sample_engine
      ∧ _builtin_loaded sample_engine = true)
     ∨ (_builtin_loaded sample_engine = false
        ∧ _builtin_loaded
            {| _misspellings :=
                 {[ py "tpyo" := {| candidates := [py "typo"];
                                    fix_ := true; reason := [] |};
                    py "ment" := {| candidates := [py "meant"];
                                    fix_ := true; reason := [] |} ]};
               _builtin_loaded := false;
               ignore_words_cased := λ _, false |} = false
        ∧ (OSError = ValueError ∨ OSError = OSError
           ∨ ∃ n, n ∈ [py "clear"; py "names"]
               ∧ OSError = UnknownBuiltinDictionaryError n))).
Proof.
  assert (load_builtin_dictionaries lower_ascii sample_fs sample_root
            sample_engine [py "clear"; py "names"] (λ _, false)
          = Raise OSError
              {| _misspellings :=
                   {[ py "tpyo" := {| candidates := [py "typo"];
                                      fix_ := true; reason := [] |};
                      py "ment" := {| candidates := [py "meant"];
                                      fix_ := true; reason := [] |} ]};
                 _builtin_loaded := false;
                 ignore_words_cased := λ _, false |}) as Hraise
    by (vm_compute; reflexivity).
  split; [exact Hraise|].
  exact (failed_bulk_load_never_seals lower_ascii sample_fs sample_root
           _ _ _ _ _ Hraise).
Defined.

Lemma bulk_load_succeeds_iff_witness :
  (∃ s', load_builtin_dictionaries lower_ascii sample_fs sample_root
           sample_engine [py "rare"; py "clear"] (λ _, false) = Ok s'
         ∧ _builtin_loaded s' = true)
  ↔ ∀ n, n ∈ [py "rare"; py "clear"] →
      ∃ builtin f,
        List.find (λ builtin, bool_decide (b_name builtin = n))
          _builtin_dictionaries = Some builtin
        ∧ sample_fs (Str.path_join sample_root
                       (py "dictionary" ++ b_suffix builtin ++ py ".txt"))
          = Some f
        ∧ Forall (λ line, Str.count (py "->") line = 1%nat) f.
Proof.
  apply (bulk_load_succeeds_iff lower_ascii sample_fs sample_root
           sample_engine [py "rare"; py "clear"] (λ _, false)).
  reflexivity.
Defined.

Lemma empty_request_witness :
  load_builtin_dictionaries lower_ascii sample_fs sample_root
    sample_engine [] (λ _, false)
  = Ok (set_builtin_loaded sample_engine true)
  ∧ load_builtin_dictionaries lower_ascii sample_fs sample_root
      (set_builtin_loaded sample_engine true) [py "clear"] (λ _, false)
    = Raise BuiltinDictionariesAlreadyLoadedError
        (set_builtin_loaded sample_engine true).
Proof.
  apply (empty_request lower_ascii sample_fs sample_root sample_engine
           [py "clear"] (λ _, false) (λ _, false)).
  reflexivity.
Defined.

Lemma constructor_seal_witness :
  (_builtin_loaded
     (state_of (__init__ lower_ascii sample_fs sample_root
                  (Some _builtin_default_as_tuple))) = true
   ↔ ∃ name names, Some _builtin_default_as_tuple = Some (name :: names))
  ∧ (_builtin_loaded
       (state_of (__init__ lower_ascii sample_fs sample_root
                    (Some _builtin_default_as_tuple))) = true →
     ∀ names ignore_words,
       load_builtin_dictionaries lower_ascii sample_fs sample_root
         (state_of (__init__ lower_ascii sample_fs sample_root
                      (Some _builtin_default_as_tuple)))
         names ignore_words
       = Raise BuiltinDictionariesAlreadyLoadedError
           (state_of (__init__ lower_ascii sample_fs sample_root
                        (Some _builtin_default_as_tuple)))).
Proof.
  apply (constructor_seal lower_ascii sample_fs sample_root
           (Some _builtin_default_as_tuple)).
  vm_compute. reflexivity.
Defined.

Lemma str_as_names_unknown_witness :
  ∃ n, n ∈ (λ c, [c]) <$> py "clear"
    ∧ (∀ n', n' ∈ (λ c, [c]) <$> py "clear" → Str.le n n')
    ∧ load_builtin_dictionaries lower_ascii sample_fs sample_root
        sample_engine ((λ c, [c]) <$> py "clear") (λ _, false)
      = Raise (UnknownBuiltinDictionaryError n) sample_engine.
Proof.
  apply (str_as_names_unknown lower_ascii sample_fs sample_root
           sample_engine ((λ c, [c]) <$> py "clear") (λ _, false)).
  - discriminate.
  - vm_compute. repeat constructor.
  - reflexivity.
Defined.

Lemma scan_sound_witness :
  {| group := py "Tpyo"; start := 2 |}
  ∈ word_tokenizer (py "A Tpyo here")
  ∧ py "Tpyo" = group {| group := py "Tpyo"; start := 2 |}
  ∧ py "tpyo" = lower_ascii (py "Tpyo")
  ∧ check_lower_cased_word (sample_engine_with [py "tpyo"]) (py "tpyo")
    = Some {| candidates := [py "abc"]; fix_ := true; reason := [] |}
  ∧ ignore_words_cased (sample_engine_with [py "tpyo"]) (py "Tpyo") = false
  ∧ (λ _ : str, false) (py "tpyo") = false.
Proof.
  apply (scan_sound lower_ascii (sample_engine_with [py "tpyo"])
           (py "A Tpyo here") word_tokenizer (λ _, false)
           {| word := py "Tpyo"; lword := py "tpyo";
              misspelling :=
                {| candidates := [py "abc"]; fix_ := true; reason := [] |};
              token := {| group := py "Tpyo"; start := 2 |} |}).
  vm_compute. apply list_elem_of_here.
Defined.

Lemma scan_characterization_witness :
  raised (spellcheck_line lower_ascii (sample_engine_with [py "nabc"])
            (py "x = '\nabc' nabc") word_tokenizer (λ _, false)) = None
  ∧ ∀ d,
      d ∈ yielded (spellcheck_line lower_ascii
                     (sample_engine_with [py "nabc"])
                     (py "x = '\nabc' nabc") word_tokenizer (λ _, false))
      ↔ token d ∈ word_tokenizer (py "x = '\nabc' nabc")
        ∧ word d = group (token d)
        ∧ lword d = lower_ascii (word d)
        ∧ _misspellings (sample_engine_with [py "nabc"]) !! lword d
          = Some (misspelling d)
        ∧ ignore_words_cased (sample_engine_with [py "nabc"]) (word d) = false
        ∧ (λ _ : str, false) (lword d) = false
        ∧ ¬ ((1 ≤ start (token d))%Z
             ∧ py "x = '\nabc' nabc" !! Z.to_nat (start (token d) - 1)
               = Some 92
             ∧ (∃ c rest, word d = c :: rest
                  ∧ c ∈ [97; 98; 102; 110; 114; 116; 118])
             ∧ _misspellings (sample_engine_with [py "nabc"])
                 !! drop 1 (lword d) = None).
Proof.
  apply (scan_characterization lower_ascii (sample_engine_with [py "nabc"])
           (py "x = '\nabc' nabc") word_tokenizer (λ _, false)).
  vm_compute. repeat constructor; discriminate.
Defined.

Lemma scan_index_error_witness :
  spellcheck_line lower_ascii (sample_engine_with [py "nabc"])
    (py "nabc") far_tokenizer (λ _, false)
  = {| yielded := []; raised := Some IndexError |}
  ∧ IndexError = IndexError
  ∧ ∃ t, t ∈ far_tokenizer (py "nabc")
      ∧ (Z.of_nat (length (py "nabc")) < start t)%Z
      ∧ is_Some (check_lower_cased_word (sample_engine_with [py "nabc"])
                   (lower_ascii (group t)))
      ∧ ignore_words_cased (sample_engine_with [py "nabc"]) (group t) = false
      ∧ (λ _ : str, false) (lower_ascii (group t)) = false.
Proof.
  split; [vm_compute; reflexivity|].
  apply (scan_index_error lower_ascii (sample_engine_with [py "nabc"])
           (py "nabc") far_tokenizer (λ _, false) IndexError).
  vm_compute. reflexivity.
Defined.

Lemma scan_unknown_words_safe_witness :
  spellcheck_line lower_ascii sample_engine
    (py "A touple tpyo but also correct words appear") far_tokenizer
    (λ _, false)
  = {| yielded := []; raised := None |}.
Proof.
  apply (scan_unknown_words_safe lower_ascii sample_engine
           (py "A touple tpyo but also correct words appear") far_tokenizer
           (λ _, false)).
  intros t _. apply lookup_empty.
Defined.

Lemma token_at_line_start_reported_witness :
  {| word := py "nabc"; lword := py "nabc";
     misspelling := {| candidates := [py "abc"]; fix_ := true; reason := [] |};
     token := {| group := py "nabc"; start := 0 |} |}
  ∈ yielded (spellcheck_line lower_ascii (sample_engine_with [py "nabc"])
               (py "nabc = 1") word_tokenizer (λ _, false)).
Proof.
  apply (token_at_line_start_reported lower_ascii
           (sample_engine_with [py "nabc"]) (py "nabc = 1") word_tokenizer
           (λ _, false) {| group := py "nabc"; start := 0 |}).
  - vm_compute. apply list_elem_of_here.
  - discriminate.
  - vm_compute. reflexivity.
  - reflexivity.
  - reflexivity.
  - vm_compute. repeat constructor; discriminate.
Defined.

Lemma loaded_keys_found_witness :
  is_Some
    (check_lower_cased_word
       (state_of (load_dictionary_from_file lower_ascii sample_fs2
                    sample_engine (py "whole.txt") (λ _, false)))
       (lower_ascii (py "tpyo"))).
Proof.
  apply (loaded_keys_found lower_ascii sample_fs2 sample_engine _
           (py "whole.txt") (λ _, false)
           [py "tpyo->typo" ++ [10]; py "teh->the, ten, ambiguous" ++ [10]]
           (py "tpyo->typo" ++ [10]) (py "tpyo") (py "typo" ++ [10])).
  - vm_compute. reflexivity.
  - vm_compute. reflexivity.
  - apply list_elem_of_here.
  - vm_compute. reflexivity.
  - reflexivity.
Defined.

(** ** The model at the examples of the source *)

Example strip_ex : Str.strip ([9] ++ py " do not " ++ [10]) = py "do not".
Proof. reflexivity. Qed.

Example split_ex :
  Str.split (py "->") (py "abc->de, f->") = [py "abc"; py "de, f"; py ""].
Proof. reflexivity. Qed.

Example rsplit1_ex :
  Str.rsplit1 (py ",") (py "a,b, c") = [py "a,b"; py " c"].
Proof. reflexivity. Qed.

Example sorted_ex :
  Str.sorted [py "rare"; py "clear"; py "code"; py "clear"]
  = [py "clear"; py "clear"; py "code"; py "rare"].
Proof. reflexivity. Qed.

Example path_join_ex :
  Str.path_join sample_root (py "dictionary" ++ py "_rare" ++ py ".txt")
  = py "/srv/codespell/data/dictionary_rare.txt".
Proof. reflexivity. Qed.

Example _builtin_default_as_tuple_ex :
  _builtin_default_as_tuple = [py "clear"; py "rare"].
Proof. reflexivity. Qed.

(** The session of the docstring of [Spellchecker], on a dictionary that
    holds the two records it needs. *)
Example spellcheck_line_ex :
  (λ d, (word d, candidates (misspelling d), fix_ (misspelling d)))
  <$> yielded
        (spellcheck_line lower_ascii
           (state_of (load_dictionary_from_file lower_ascii sample_fs
                        sample_engine (py "typos.txt") (λ _, false)))
           (py "A touple tpyo but also correct words appear")
           space_tokenizer (λ _, false))
  = [(py "touple",
      [py "tuple"; py "couple"; py "topple"; py "toupee"], false);
     (py "tpyo", [py "typo"], true)].
Proof. vm_compute. reflexivity. Qed.

(** Two built-in sources that disagree on [ment]: whatever the order of the
    request, [clear] is loaded before [rare] and the record of [rare]
    stays. *)
Example builtin_conflict_ex :
  load_builtin_dictionaries lower_ascii sample_fs sample_root sample_engine
    [py "rare"; py "clear"] (λ _, false)
  = Ok {| _misspellings :=
            {[ py "tpyo" := {| candidates := [py "typo"];
                               fix_ := true; reason := [] |};
               py "ment" := {| candidates := [py "meant"; py "mend"];
                               fix_ := false; reason := py "a rare word" |} ]};
          _builtin_loaded := true;
          ignore_words_cased := λ _, false |}.
Proof. vm_compute. reflexivity. Qed.
